(** * generate_assets.py: batch generation of the card-ledger image assets

    A shallow embedding of [generate_assets.py].  The script is sequential
    glue around four external collaborators: the generation service
    ([replicate.run]), the HTTP download ([urllib.request.urlretrieve]),
    the local file system ([os.makedirs], [os.path.exists],
    [os.path.getsize]) and the console ([print], [time.sleep]).  The
    collaborators are modelled by an explicit [world] (file system, console
    output, log of external calls) and an [env] of oracles that decide,
    from the current world, how each external call answers.  The script
    itself is written in a state-and-exception monad over [world]. *)

From Stdlib Require Import ZArith Strings.Ascii Strings.String Strings.Byte.
From stdpp Require Import gmap strings list fin_maps pretty.

(** ** Python exceptions *)

(** The part of Python's class hierarchy the script distinguishes:
    [BaseException > Exception > OSError > FileExistsError].  An exception
    whose most specific modelled class is [BaseException] stands for
    [KeyboardInterrupt] and [SystemExit], which [except Exception] lets
    through. *)
Inductive pyclass := BaseException | Exception | OSError | FileExistsError.

Definition issubclass (c d : pyclass) : bool :=
  match d, c with
  | BaseException, _ => true
  | Exception, BaseException => false
  | Exception, _ => true
  | OSError, (OSError | FileExistsError) => true
  | OSError, _ => false
  | FileExistsError, FileExistsError => true
  | FileExistsError, _ => false
  end.

(** An exception value: its class and what [str(e)] gives. *)
Record exn := Exn { exn_class : pyclass; exn_str : string }.

Definition isinstance (e : exn) (c : pyclass) : bool :=
  issubclass (exn_class e) c.

(** ** The world *)

Definition bytes := list byte.

(** A file system entry: a directory (with the size [stat] reports for it)
    or a regular file with its content. *)
Inductive node := Dir (st_size : Z) | File (content : bytes).

(** Entries are keyed by the components of their path. *)
Abbreviation path := (list string).

(** The dict passed as [input=] to [replicate.run]. *)
Record run_input := RunInput {
  in_prompt : string;
  in_aspect_ratio : string;
  in_output_format : string;
  in_safety_tolerance : Z
}.

(** What [replicate.run] returns; [str(output)] is the image's URL. *)
Record FileOutput := { output_url : string }.

Definition str (o : FileOutput) : string := output_url o.

(** How one [urlretrieve] ends: the whole body was written; or it raised,
    leaving the destination untouched ([None]) or holding the bytes
    written so far ([Some]); or it returned without the data having
    reached the destination, the write having gone elsewhere (a
    redirected or virtualised folder) or been rolled back: the entry at
    the destination is then what it was before the call, and the script,
    looking again, finds no file or the one of an earlier run. *)
Inductive fetch_outcome :=
| Fetched (body : bytes)
| FetchFailed (e : exn) (written : option bytes)
| FetchedAndGone.

(** The external calls a run makes, each logged with its answer. *)
Inductive call :=
| Run (ref : string) (input : run_input) (res : exn + FileOutput)
| Urlretrieve (url filepath : string) (res : fetch_outcome)
| Sleep (secs : Z) (res : option exn)
| Mkdir (name : path) (res : option exn).

Record world := World {
  fs : gmap path node;
  stdout : list string;
  calls : list call
}.

Definition set_fs (f : gmap path node → gmap path node) (w : world) : world :=
  {| fs := f (fs w); stdout := stdout w; calls := calls w |}.

Definition emit (line : string) (w : world) : world :=
  {| fs := fs w; stdout := stdout w ++ [line]; calls := calls w |}.

Definition log (c : call) (w : world) : world :=
  {| fs := fs w; stdout := stdout w; calls := calls w ++ [c] |}.

(** ** The environment *)

(** The oracles.  Each sees the world at the moment of the call, so an
    answer may depend on everything that happened before. *)
Record env := Env {
  (** [replicate.run(ref, input=...)]: an output, or an exception. *)
  service : world → string → run_input → exn + FileOutput;
  (** [urlretrieve(url, filepath)]. *)
  fetch : world → string → string → fetch_outcome;
  (** [print(line, flush=True)]: [Some e] when writing to stdout raises. *)
  console : world → string → option exn;
  (** [time.sleep(secs)]: [Some e] when the sleep is interrupted. *)
  timer : world → Z → option exn;
  (** [os.mkdir(name)]: [Some msg] when the operating system refuses for a
      reason of its own (permissions, read-only volume); the [OSError]
      carries [msg]. *)
  mkdir_refused : world → path → option string
}.

(** ** The monad: state and exceptions over [world] *)

Inductive outcome (A : Type) :=
| Ok (a : A) (w : world)
| Raise (e : exn) (w : world).
Arguments Ok {A} a w.
Arguments Raise {A} e w.

Definition M (A : Type) : Type := world → outcome A.

Global Instance M_ret : MRet M := λ A a w, Ok a w.

Global Instance M_bind : MBind M := λ A B k m w,
  match m w with
  | Ok a w' => k a w'
  | Raise e w' => Raise e w'
  end.

(** [try: body  except c as e: handler e]. *)
Definition try_except {A} (body : M A) (c : pyclass) (handler : exn → M A) : M A :=
  λ w, match body w with
       | Ok a w' => Ok a w'
       | Raise e w' => if isinstance e c then handler e w' else Raise e w'
       end.

(** [for i, x in enumerate(l, start): body i x]. *)
Fixpoint for_enumerate {A} (start : Z) (l : list A) (body : Z → A → M unit) : M unit :=
  match l with
  | [] => mret ()
  | x :: l' => body start x ;; for_enumerate (start + 1)%Z l' body
  end.

(** [for x in l: body x]. *)
Fixpoint for_each {A} (l : list A) (body : A → M unit) : M unit :=
  match l with
  | [] => mret ()
  | x :: l' => body x ;; for_each l' body
  end.

Definition len {A} (l : list A) : Z := Z.of_nat (length l).

(** ** Paths *)

Definition backslash : ascii := ascii_of_nat 92.
Definition newline : string := String (ascii_of_nat 10) EmptyString.

(** Both the slash and the backslash separate path components. *)
Definition is_sep (c : ascii) : bool :=
  bool_decide (c = "/"%char) || bool_decide (c = backslash).

Definition flush (cur : string) : list string :=
  if bool_decide (cur = EmptyString) then [] else [cur].

(** [components cur s]: the components of [s], where [cur] holds the
    characters of the component being read.  Empty components (doubled or
    trailing separators) are dropped. *)
Fixpoint components (cur : string) (s : string) : list string :=
  match s with
  | EmptyString => flush cur
  | String c s' =>
      if is_sep c then flush cur ++ components EmptyString s'
      else components (cur +:+ String c EmptyString) s'
  end.

(** The file system entry a path string names. *)
Definition resolve (name : string) : path := components EmptyString name.

Fixpoint last_char (s : string) : option ascii :=
  match s with
  | EmptyString => None
  | String c EmptyString => Some c
  | String _ s' => last_char s'
  end.

(** [os.path.join(a, b)] for a second argument that is a relative name
    without a drive, which is all the script passes: [b] is appended, after
    a backslash unless [a] is empty or already ends in a separator. *)
Definition os_path_join (a b : string) : string :=
  match last_char a with
  | None => b
  | Some c => if is_sep c then a +:+ b else a +:+ String backslash b
  end.

(** A file name that is one path component: not empty, not [.] or [..],
    and with no separator and no drive colon in it. *)
Definition plain_name (f : string) : bool :=
  negb (bool_decide (f = EmptyString)) && negb (bool_decide (f = "."))
  && negb (bool_decide (f = ".."))
  && forallb (λ c, negb (is_sep c) && negb (bool_decide (c = ":"%char)))
       (list_ascii_of_string f).

(** Paths are compared as they are written, not by running the split. *)
Global Arguments components : simpl never.
Global Arguments resolve : simpl never.
Global Arguments os_path_join : simpl never.
Global Strategy 100 [components resolve os_path_join].

(** [head, tail = os.path.split(name)] on components. *)
Definition parent (p : path) : path := removelast p.

(** ** The external calls *)

Section Script.
Context (E : env).

(** [print(line, flush=True)]. *)
Definition print (line : string) : M unit := λ w,
  match console E w line with
  | None => Ok () (emit line w)
  | Some e => Raise e w
  end.

(** [time.sleep(secs)]. *)
Definition time_sleep (secs : Z) : M unit := λ w,
  let r := timer E w secs in
  let w' := log (Sleep secs r) w in
  match r with
  | None => Ok () w'
  | Some e => Raise e w'
  end.

(** [replicate.run(ref, input=input)]. *)
Definition replicate_run (ref : string) (input : run_input) : M FileOutput := λ w,
  let r := service E w ref input in
  let w' := log (Run ref input r) w in
  match r with
  | inr o => Ok o w'
  | inl e => Raise e w'
  end.

(** [urllib.request.urlretrieve(url, filepath)]: the destination is opened
    for writing, so what was there is replaced, also by a download that
    fails half way.  Nothing is removed on failure. *)
Definition urlretrieve (url filepath : string) : M unit := λ w,
  let r := fetch E w url filepath in
  let w' := log (Urlretrieve url filepath r) w in
  match r with
  | Fetched body => Ok () (set_fs <[resolve filepath := File body]> w')
  | FetchFailed e None => Raise e w'
  | FetchFailed e (Some part) =>
      Raise e (set_fs <[resolve filepath := File part]> w')
  | FetchedAndGone => Ok () w'
  end.

Definition path_exists (m : gmap path node) (p : path) : bool :=
  bool_decide (is_Some (m !! p)).

Definition path_isdir (m : gmap path node) (p : path) : bool :=
  match m !! p with
  | Some (Dir _) => true
  | _ => false
  end.

(** [os.path.exists(name)]. *)
Definition os_path_exists (name : string) : M bool := λ w,
  Ok (path_exists (fs w) (resolve name)) w.

(** What [os.stat] raises for a name that has no entry: a
    [FileNotFoundError], which is an [OSError].  The text of the error is
    the operating system's, and the script does no more than print it;
    the model takes the wording of [errno 2] with the name as written. *)
Definition no_such_file (name : string) : exn :=
  Exn OSError ("[Errno 2] No such file or directory: " +:+ name).

(** [os.path.getsize(name)]: [os.stat(name).st_size].  It raises when the
    name has no entry.  The disk of the model has no permissions, so that
    is its one failure; it is the failure the read-back of the loop meets
    when a download returned and the file is not there
    ([FetchedAndGone]), and the one [os.path.exists] guards against in
    the summary. *)
Definition os_path_getsize (name : string) : M Z := λ w,
  match fs w !! resolve name with
  | Some (File c) => Ok (len c) w
  | Some (Dir sz) => Ok sz w
  | None => Raise (no_such_file name) w
  end.

(** ** [os.makedirs] *)

(** Why the file system itself refuses [os.mkdir] of [p]. *)
Definition mkdir_error (m : gmap path node) (p : path) : option exn :=
  match p with
  | [] => Some (Exn OSError "[Errno 2] No such file or directory")
  | _ =>
      if path_exists m p then Some (Exn FileExistsError "[Errno 17] File exists")
      else match parent p with
           | [] => None
           | hd => match m !! hd with
                   | None => Some (Exn OSError "[Errno 2] No such file or directory")
                   | Some (File _) => Some (Exn OSError "[Errno 20] Not a directory")
                   | Some (Dir _) => None
                   end
           end
  end.

(** [os.mkdir(p)]: one directory, whose parent must be there. *)
Definition os_mkdir (p : path) : M unit := λ w,
  let r := match mkdir_refused E w p with
           | Some msg => Some (Exn OSError msg)
           | None => mkdir_error (fs w) p
           end in
  let w' := log (Mkdir p r) w in
  match r with
  | Some e => Raise e w'
  | None => Ok () (set_fs <[p := Dir 0]> w')
  end.

(** The last step of [os.makedirs]:
    [try: mkdir(name)
     except OSError: if not exist_ok or not path.isdir(name): raise]. *)
Definition mkdir_leaf (p : path) (exist_ok : bool) : M unit :=
  try_except (os_mkdir p) OSError (λ e w,
    if negb exist_ok || negb (path_isdir (fs w) p) then Raise e w
    else Ok () w).

(** The first half of [os.makedirs], with [rec] the recursive call on
    [head]:
    [if head and tail and not path.exists(head):
         try: makedirs(head, exist_ok=exist_ok)
         except FileExistsError: pass
         if tail == curdir: return].
    The result says whether [makedirs] returns here. *)
Definition make_head (rec : M unit) (head : path) (tail : string) : M bool := λ w,
  if negb (bool_decide (head = [])) && negb (path_exists (fs w) head)
  then (try_except rec FileExistsError (λ _, mret ()) ;;
        mret (bool_decide (tail = "."))) w
  else Ok false w.

(** [os.makedirs] on the components of the name, last component first:
    [head, tail = path.split(name)], the block above, then the leaf.  A
    component is never empty, so [head and tail] comes down to [head]. *)
Fixpoint makedirs_rev (rname : list string) (exist_ok : bool) : M unit :=
  match rname with
  | [] => mkdir_leaf [] exist_ok
  | tail :: rhead =>
      returned ← make_head (makedirs_rev rhead exist_ok) (reverse rhead) tail;
      if returned : bool then mret ()
      else mkdir_leaf (reverse rname) exist_ok
  end.

(** [os.makedirs(name, exist_ok=exist_ok)]. *)
Definition os_makedirs (name : string) (exist_ok : bool) : M unit :=
  makedirs_rev (reverse (resolve name)) exist_ok.

End Script.

(** ** The script *)

(** The script starts with [sys.stdout.reconfigure(encoding='utf-8')],
    which only sets how the lines are encoded; lines are kept here as the
    strings handed to [print]. *)

Definition ASSETS : string :=
  "C:/Users/useva/.openclaw/workspace/projects/card-ledger/public/assets".

(** One entry of [images]: [(filename, aspect, prompt)]. *)
Abbreviation item := (string * string * string)%type.

Definition images : list item := [
  ("hero-bg.png", "16:9",
   "Futuristic dark scene with holographic Pokemon trading cards floating in 3D space, glass panels with glowing blue data visualizations, deep navy and purple gradient background, volumetric lighting rays, bokeh particles, cinematic composition, ultra high quality");
  ("feature-track.png", "1:1",
   "Glass display case with holographic trading cards arranged in a grid, each card glowing with iridescent rainbow edges, dark background with blue ambient light, museum-quality presentation, ultra realistic, professional product photography");
  ("feature-price.png", "1:1",
   "Futuristic holographic price dashboard floating in dark space, glowing blue and purple charts and numbers, glass panels with market data, trading card silhouettes in background, cinematic lighting, high tech financial interface aesthetic");
  ("feature-scan.png", "1:1",
   "Smartphone scanning a holographic Pokemon card with AR augmented reality overlay, blue scanning laser lines, card data floating in glass panels around the phone, dark background, futuristic tech aesthetic, professional");
  ("feature-profit.png", "1:1",
   "Holographic portfolio analytics dashboard floating in dark space, glowing green profit chart trending upward, glass panels with card thumbnails, blue and purple ambient light, futuristic financial visualization, cinematic");
  ("empty-inventory.png", "1:1",
   "Single holographic trading card floating in dark void, soft blue glow emanating from the card, minimalist, particles of light, ethereal and calm, centered composition, clean negative space");
  ("empty-search.png", "1:1",
   "Glass magnifying lens floating in dark space, blue light refracting through the lens, scattered light particles, minimalist futuristic aesthetic, clean and elegant");
  ("empty-sales.png", "1:1",
   "Holographic receipt transforming into a glowing chart, blue and green light, glass effect, dark background, futuristic financial transformation concept, minimalist");
  ("onboard-welcome.png", "9:16",
   "Single holographic Pokemon card bursting with prismatic light rays, dark background, epic and dramatic, card emerging from darkness into brilliant blue and purple light, cinematic vertical composition");
  ("onboard-scan.png", "9:16",
   "Hands holding smartphone scanning a trading card, AR overlay with blue holographic data, card identification interface, dark background, futuristic mobile technology, vertical composition");
  ("onboard-track.png", "9:16",
   "Beautiful glass dashboard showing trading card collection grid, holographic cards organized in rows, portfolio value displayed prominently, dark background with blue glow, vertical composition");
  ("onboard-price.png", "9:16",
   "Futuristic price ticker display with holographic numbers and charts, trading cards with price tags floating, market data visualization, blue and green accents on dark background, vertical composition");
  ("onboard-profit.png", "9:16",
   "Portfolio growth visualization, glowing green upward trending line chart, holographic coins and trading cards, celebration energy, dark background with blue and green light, vertical composition");
  ("og-share.png", "16:9",
   "Premium dark banner with holographic trading cards fanned out, glass panel overlay, blue and purple gradient, professional and sleek, wide cinematic composition, card collection showcase");
  ("empty-watchlist.png", "1:1",
   "Futuristic eye icon with blue radar pulse rings emanating outward, dark background, holographic glass effect, surveillance and monitoring aesthetic, minimalist and clean")
].

(** [s * n] on strings. *)
Fixpoint str_mul (s : string) (n : nat) : string :=
  match n with
  | O => EmptyString
  | S n' => s +:+ str_mul s n'
  end.

(** The lines the script prints. *)
Definition progress_notice (i n : Z) (filename aspect : string) : string :=
  newline +:+ "[" +:+ pretty (i + 1)%Z +:+ "/" +:+ pretty n +:+ "] Generating "
  +:+ filename +:+ " (" +:+ aspect +:+ ")...".

Definition saved_notice (filename : string) (size : Z) : string :=
  "  OK Saved: " +:+ filename +:+ " (" +:+ pretty (size / 1024)%Z +:+ " KB)".

Definition fail_notice (filename : string) (e : exn) : string :=
  "  FAIL: " +:+ filename +:+ " - " +:+ exn_str e.

Definition waiting_notice : string := "  Waiting 65s...".

Definition present_line (filename : string) (size : Z) : string :=
  "  OK " +:+ filename +:+ ": " +:+ pretty (size / 1024)%Z +:+ " KB".

Definition missing_line (filename : string) : string :=
  "  MISSING " +:+ filename.

Definition rule : string := str_mul "=" 50.

Definition model_ref : string := "black-forest-labs/flux-1.1-pro".

Global Arguments progress_notice : simpl never.
Global Arguments saved_notice : simpl never.
Global Arguments fail_notice : simpl never.
Global Arguments present_line : simpl never.
Global Arguments missing_line : simpl never.
Global Arguments rule : simpl never.
Global Strategy 100 [progress_notice saved_notice fail_notice present_line
                     missing_line rule].

(** The [input=] dict of one request. *)
Definition request (aspect prompt : string) : run_input :=
  {| in_prompt := prompt; in_aspect_ratio := aspect;
     in_output_format := "png"; in_safety_tolerance := 5 |}.

Section Batch.
Context (E : env).

(** The body of the [try]. *)
Definition try_body (filename aspect prompt : string) : M unit :=
  output ← replicate_run E model_ref (request aspect prompt);
  let url := str output in
  let filepath := os_path_join ASSETS filename in
  urlretrieve E url filepath ;;
  size ← os_path_getsize filepath;
  print E (saved_notice filename size).

(** The [except Exception as e] handler. *)
Definition handler (filename : string) (e : exn) : M unit :=
  print E (fail_notice filename e).

(** [if i < len(images) - 1: print(...); time.sleep(65)]. *)
Definition pace (images : list item) (i : Z) : M unit :=
  if bool_decide (i < len images - 1)%Z
  then print E waiting_notice ;; time_sleep E 65
  else mret ().

(** One iteration of the generation loop. *)
Definition loop_body (images : list item) (i : Z) (it : item) : M unit :=
  let '(filename, aspect, prompt) := it in
  print E (progress_notice i (len images) filename aspect) ;;
  try_except (try_body filename aspect prompt) Exception (handler filename) ;;
  pace images i.

Definition generation_loop (images : list item) : M unit :=
  for_enumerate 0 images (loop_body images).

(** One iteration of the summary loop. *)
Definition summary_body (it : item) : M unit :=
  let '(filename, _, _) := it in
  let filepath := os_path_join ASSETS filename in
  present ← os_path_exists filepath;
  if present : bool then
    size ← os_path_getsize filepath;
    print E (present_line filename size)
  else print E (missing_line filename).

Definition summary (images : list item) : M unit :=
  print E (newline +:+ rule) ;;
  print E "SUMMARY" ;;
  print E rule ;;
  for_each images summary_body ;;
  print E "DONE".

(** The whole script, for a given list. *)
Definition script (images : list item) : M unit :=
  os_makedirs E ASSETS true ;;
  generation_loop images ;;
  summary images.

(** The script as it stands, on its own list. *)
Definition main : M unit := script images.

End Batch.

(** ** Observations on a world *)

(** The requests sent to the generation service, oldest first. *)
Definition service_requests (cs : list call) : list (string * run_input) :=
  omap (λ c, match c with Run ref input _ => Some (ref, input) | _ => None end) cs.

(** The pacing delays slept, oldest first. *)
Definition sleeps (cs : list call) : list Z :=
  omap (λ c, match c with Sleep secs _ => Some secs | _ => None end) cs.

(** The service requests and the delays, in the order they happened. *)
Inductive beat := Request (input : run_input) | Delay (secs : Z).

Definition beats (cs : list call) : list beat :=
  omap (λ c, match c with
             | Run _ input _ => Some (Request input)
             | Sleep secs _ => Some (Delay secs)
             | _ => None
             end) cs.

Definition filename_of (it : item) : string := it.1.1.

Definition aspect_of (it : item) : string := it.1.2.

Definition prompt_of (it : item) : string := it.2.

(** What the script asks the service for an item. *)
Definition input_of (it : item) : run_input :=
  request (aspect_of it) (prompt_of it).

Definition request_of (it : item) : string * run_input :=
  (model_ref, input_of it).

(** The rhythm of a run over [its]: a request per item and a delay of 65
    seconds between two consecutive ones. *)
Fixpoint rhythm (its : list item) : list beat :=
  match its with
  | [] => []
  | it :: its' =>
      Request (input_of it) ::
      match its' with
      | [] => []
      | _ :: _ => Delay 65 :: rhythm its'
      end
  end.

Definition delay_of (b : beat) : option Z :=
  match b with
  | Delay secs => Some secs
  | Request _ => None
  end.

(** Where the script stores an item. *)
Definition filepath_of (it : item) : string := os_path_join ASSETS (filename_of it).

Definition target_of (it : item) : path := resolve (filepath_of it).

(** ** Well-behaved environments *)

(** Writing to stdout never raises. *)
Definition console_ok (E : env) : Prop := ∀ w line, console E w line = None.

(** The sleep is never interrupted. *)
Definition timer_ok (E : env) : Prop := ∀ w secs, timer E w secs = None.

(** What the service and the download raise are service, network and I/O
    errors: instances of [Exception]. *)
Definition errors_are_exceptions (E : env) : Prop :=
  (∀ w ref input e, service E w ref input = inl e → isinstance e Exception = true)
  ∧ (∀ w url fp e part, fetch E w url fp = FetchFailed e part →
       isinstance e Exception = true).

(** The service answers every request. *)
Definition service_succeeds (E : env) : Prop :=
  ∀ w ref input, ∃ o, service E w ref input = inr o.

(** Every download writes the whole body. *)
Definition download_succeeds (E : env) : Prop :=
  ∀ w url fp, ∃ body, fetch E w url fp = Fetched body.

(** ** A big-step description of the generation loop *)

(** [leave part fp w]: what a failed download leaves at [fp]. *)
Definition leave (part : option bytes) (fp : string) (w : world) : world :=
  match part with
  | None => w
  | Some b => set_fs <[resolve fp := File b]> w
  end.

(** What [os.path.getsize] gives for an entry. *)
Definition node_size (n : node) : Z :=
  match n with
  | Dir sz => sz
  | File c => len c
  end.

(** The ways the [try] statement of an item ends when every failure in it
    is caught and the console works: the request is refused; the download
    fails; the download goes through; the download returns but the file
    is gone, so that the read-back fails, or finds what was there
    before. *)
Inductive tried (E : env) (it : item) (w : world) : world → Prop :=
| tried_service_failed e :
    service E w model_ref (input_of it) = inl e →
    isinstance e Exception = true →
    tried E it w
      (emit (fail_notice (filename_of it) e)
         (log (Run model_ref (input_of it) (inl e)) w))
| tried_download_failed o e part :
    service E w model_ref (input_of it) = inr o →
    let w1 := log (Run model_ref (input_of it) (inr o)) w in
    fetch E w1 (str o) (filepath_of it) = FetchFailed e part →
    isinstance e Exception = true →
    tried E it w
      (emit (fail_notice (filename_of it) e)
         (leave part (filepath_of it)
            (log (Urlretrieve (str o) (filepath_of it) (FetchFailed e part)) w1)))
| tried_saved o body :
    service E w model_ref (input_of it) = inr o →
    let w1 := log (Run model_ref (input_of it) (inr o)) w in
    fetch E w1 (str o) (filepath_of it) = Fetched body →
    tried E it w
      (emit (saved_notice (filename_of it) (len body))
         (set_fs <[target_of it := File body]>
            (log (Urlretrieve (str o) (filepath_of it) (Fetched body)) w1)))
| tried_readback_failed o :
    service E w model_ref (input_of it) = inr o →
    let w1 := log (Run model_ref (input_of it) (inr o)) w in
    fetch E w1 (str o) (filepath_of it) = FetchedAndGone →
    fs w !! target_of it = None →
    tried E it w
      (emit (fail_notice (filename_of it) (no_such_file (filepath_of it)))
         (log (Urlretrieve (str o) (filepath_of it) FetchedAndGone) w1))
| tried_readback_stale o n :
    service E w model_ref (input_of it) = inr o →
    let w1 := log (Run model_ref (input_of it) (inr o)) w in
    fetch E w1 (str o) (filepath_of it) = FetchedAndGone →
    fs w !! target_of it = Some n →
    tried E it w
      (emit (saved_notice (filename_of it) (node_size n))
         (log (Urlretrieve (str o) (filepath_of it) FetchedAndGone) w1)).

(** The world after the pacing step of item [i] of [n]. *)
Definition paced (n i : Z) (w : world) : world :=
  if bool_decide (i < n - 1)%Z
  then log (Sleep 65 None) (emit waiting_notice w)
  else w.

(** [looped E n i its w w']: iterating over [its], the first of which has
    index [i] of [n], leads from [w] to [w']. *)
Inductive looped (E : env) (n : Z) : Z → list item → world → world → Prop :=
| looped_nil i w : looped E n i [] w w
| looped_cons i it its w w1 w' :
    tried E it (emit (progress_notice i n (filename_of it) (aspect_of it)) w) w1 →
    looped E n (i + 1)%Z its (paced n i w1) w' →
    looped E n i (it :: its) w w'.

(** ** The summary, as the specification words it *)

(** The line for one entry: the name and its size in KiB, rounded down,
    when [<output_dir>/<filename>] exists; the name flagged as missing
    otherwise. *)
Definition summary_line (m : gmap path node) (it : item) : string :=
  match m !! target_of it with
  | Some (File c) => present_line (filename_of it) (len c)
  | Some (Dir sz) => present_line (filename_of it) sz
  | None => missing_line (filename_of it)
  end.

Definition summary_report (m : gmap path node) (its : list item) : list string :=
  [newline +:+ rule; "SUMMARY"; rule] ++ (summary_line m <$> its) ++ ["DONE"].

(** [emits ls w]: [w] after the lines [ls] were printed. *)
Definition emits (ls : list string) (w : world) : world :=
  {| fs := fs w; stdout := stdout w ++ ls; calls := calls w |}.

(** ** Directory preparation *)

Definition is_mkdir (c : call) : bool :=
  match c with
  | Mkdir _ _ => true
  | _ => false
  end.

(** The world an outcome leaves. *)
Definition final {A} (r : outcome A) : world :=
  match r with
  | Ok _ w => w
  | Raise _ w => w
  end.

(** Whether an outcome is a normal return. *)
Definition succeeds {A} (r : outcome A) : bool :=
  match r with
  | Ok _ _ => true
  | Raise _ _ => false
  end.

(** A file system in which every entry below the first level sits in a
    directory. *)
Definition tree_shaped (m : gmap path node) : Prop :=
  ∀ p n, m !! p = Some n → parent p = [] ∨ path_isdir m (parent p) = true.

(** No prefix of [name] is a regular file. *)
Definition unobstructed (m : gmap path node) (name : path) : Prop :=
  ∀ p c, p `prefix_of` name → m !! p ≠ Some (File c).

(** The operating system refuses no [mkdir] for reasons of its own. *)
Definition mkdir_allowed (E : env) : Prop := ∀ w p, mkdir_refused E w p = None.

(** [prepared name w w']: [w'] is [w] after some [os.mkdir] calls, each
    successful one putting an empty directory at a missing prefix of
    [name]; nothing is printed and nothing else is called. *)
Record prepared (name : path) (w w' : world) : Prop := {
  prepared_stdout : stdout w' = stdout w;
  prepared_calls : ∃ cs, calls w' = calls w ++ cs ∧ Forall (λ c, is_mkdir c = true) cs;
  prepared_fs : ∀ p, fs w' !! p = fs w !! p
                     ∨ (fs w !! p = None ∧ fs w' !! p = Some (Dir 0)
                        ∧ p `prefix_of` name ∧ p ≠ []);
  prepared_tree : tree_shaped (fs w) → tree_shaped (fs w')
}.

(** How many requests the service has received. *)
Definition served (w : world) : nat := length (service_requests (calls w)).

(** ** Sample environments *)

(** An empty disk, a silent console, no call made. *)
Definition nothing : world := {| fs := ∅; stdout := []; calls := [] |}.

Definition sample_output (input : run_input) : FileOutput :=
  {| output_url := "https://replicate.delivery/" +:+ in_aspect_ratio input |}.

(** Two KiB of zeros. *)
Definition sample_body : bytes := replicate 2048 x00.

(** Everything works. *)
Definition quiet : env := {|
  service := λ _ _ input, inr (sample_output input);
  fetch := λ _ _ _, Fetched sample_body;
  console := λ _ _, None;
  timer := λ _ _, None;
  mkdir_refused := λ _ _, None
|}.

Definition service_down : exn := Exn Exception "Service unavailable".

(** The service refuses its request number [k], counted from 0, and
    answers all others. *)
Definition flaky (k : nat) : env := {|
  service := λ w _ input,
    if decide (served w = k) then inl service_down
    else inr (sample_output input);
  fetch := λ _ _ _, Fetched sample_body;
  console := λ _ _, None;
  timer := λ _ _, None;
  mkdir_refused := λ _ _, None
|}.

Definition broken_pipe : exn := Exn OSError "[Errno 32] Broken pipe".

(** The console raises on the line [line] and prints all others. *)
Definition deaf (line : string) : env := {|
  service := λ _ _ input, inr (sample_output input);
  fetch := λ _ _ _, Fetched sample_body;
  console := λ _ l, if decide (l = line) then Some broken_pipe else None;
  timer := λ _ _, None;
  mkdir_refused := λ _ _, None
|}.

(** What [Ctrl-C] raises: not an [Exception]. *)
Definition keyboard_interrupt : exn := Exn BaseException "".

(** Every sleep is interrupted. *)
Definition impatient : env := {|
  service := λ _ _ input, inr (sample_output input);
  fetch := λ _ _ _, Fetched sample_body;
  console := λ _ _, None;
  timer := λ _ _, Some keyboard_interrupt;
  mkdir_refused := λ _ _, None
|}.


(** The list of the specification's example scenario. *)
Definition two_items : list item := [("a.png", "1:1", "x"); ("b.png", "16:9", "y")].

(** The operating system refuses every [mkdir]. *)
Definition read_only : env := {|
  service := λ _ _ input, inr (sample_output input);
  fetch := λ _ _ _, Fetched sample_body;
  console := λ _ _, None;
  timer := λ _ _, None;
  mkdir_refused := λ _ _, Some "[Errno 13] Permission denied"
|}.

(** ** Runs of any outcome *)

(** [keeps R m]: whatever [m] ends in, a return or a raise, the world it
    leaves is [R]-related to the world it started from. *)
Definition keeps {A} (R : world → world → Prop) (m : M A) : Prop :=
  ∀ w, R w (final (m w)).

(** What a run over [its] can do to an entry of the disk: leave it, put a
    regular file where an item is stored, or put an empty directory at a
    missing place on the way to the output directory. *)
Definition disk_change (its : list item) (w w' : world) : Prop :=
  ∀ p, fs w' !! p = fs w !! p
       ∨ (p ∈ target_of <$> its ∧ ∃ b, fs w' !! p = Some (File b))
       ∨ (fs w !! p = None ∧ fs w' !! p = Some (Dir 0)
          ∧ p `prefix_of` resolve ASSETS ∧ p ≠ []).

(** A call the script makes for the list [its]: a request is sent to the
    one model and is the request of an item of the list; a sleep lasts 65
    seconds. *)
Definition genuine (its : list item) (c : call) : Prop :=
  match c with
  | Run ref input _ => ref = model_ref ∧ ∃ it, it ∈ its ∧ input = input_of it
  | Sleep secs _ => secs = 65%Z
  | _ => True
  end.

(** Every download in [cs] comes directly after a request of an item of
    [its] that the service answered, fetches the URL of that answer and
    writes to the place of that item. *)
Definition downloads_follow (its : list item) (cs : list call) : Prop :=
  ∀ j url fp r, cs !! j = Some (Urlretrieve url fp r) →
    ∃ j' it o, j = S j'
               ∧ cs !! j' = Some (Run model_ref (input_of it) (inr o))
               ∧ it ∈ its ∧ url = str o ∧ fp = filepath_of it.

(** [w'] is [w] after some calls that are genuine and in which downloads
    follow their requests. *)
Definition log_grows (its : list item) (w w' : world) : Prop :=
  ∃ cs, calls w' = calls w ++ cs
        ∧ Forall (genuine its) cs ∧ downloads_follow its cs.


(** [w'] is [w] with at most more lines printed. *)
Definition only_printed (w w' : world) : Prop :=
  fs w' = fs w ∧ calls w' = calls w.

(** The service refuses every request, and the console breaks on the
    failure notice of [a.png]. *)
Definition speechless : env := {|
  service := λ _ _ _, inl service_down;
  fetch := λ _ _ _, Fetched sample_body;
  console := λ _ l,
    if decide (l = fail_notice "a.png" service_down) then Some broken_pipe
    else None;
  timer := λ _ _, None;
  mkdir_refused := λ _ _, None
|}.

(** The service call is interrupted from the keyboard. *)
Definition interrupted : env := {|
  service := λ _ _ _, inl keyboard_interrupt;
  fetch := λ _ _ _, Fetched sample_body;
  console := λ _ _, None;
  timer := λ _ _, None;
  mkdir_refused := λ _ _, None
|}.

(** Every download breaks off after the first four bytes. *)
Definition content_too_short : exn :=
  Exn Exception "retrieval incomplete: got only 4 out of 2048 bytes".

Definition truncating : env := {|
  service := λ _ _ input, inr (sample_output input);
  fetch := λ _ _ _, FetchFailed content_too_short (Some (replicate 4 x00));
  console := λ _ _, None;
  timer := λ _ _, None;
  mkdir_refused := λ _ _, None
|}.

(** ** The lines of a run *)

(** What the loop prints for [its], the first of which has index [i] of
    [n], when the outcome lines of the items are [outs]: per item the
    progress notice, the outcome line and, unless the item is the last,
    the waiting notice. *)
Fixpoint transcript (n i : Z) (its : list item) (outs : list string) : list string :=
  match its, outs with
  | it :: its', out :: outs' =>
      [progress_notice i n (filename_of it) (aspect_of it); out]
      ++ (if bool_decide (i < n - 1)%Z then [waiting_notice] else [])
      ++ transcript n (i + 1) its' outs'
  | _, _ => []
  end.

(** The outcome line of an item: its success notice with some size, or its
    failure notice with some error. *)
Definition outcome_line (it : item) (line : string) : Prop :=
  (∃ size, line = saved_notice (filename_of it) size)
  ∨ (∃ e, line = fail_notice (filename_of it) e).

(** A disk on which a regular file sits where the output directory should
    be. *)
Definition blocked : world := {|
  fs := <[resolve ASSETS := File []]>
          (<[parent (resolve ASSETS) := Dir 0]> ∅);
  stdout := [];
  calls := []
|}.

(** A disk that holds, from an earlier run, three KiB at the place of
    [a.png] of the example list. *)
Definition left_over : world := {|
  fs := <[target_of ("a.png", "1:1", "x") := File (replicate 3072 x00)]> ∅;
  stdout := [];
  calls := []
|}.

(** The service refuses every request. *)
Definition refusing : env := {|
  service := λ _ _ _, inl service_down;
  fetch := λ _ _ _, Fetched sample_body;
  console := λ _ _, None;
  timer := λ _ _, None;
  mkdir_refused := λ _ _, None
|}.

(** * Properties *)

(** ** The monad *)

Lemma bind_Ok {A B} (m : M A) (k : A → M B) w a w1 :
  m w = Ok a w1 → (m ≫= k) w = k a w1.
Proof. intros H. unfold mbind, M_bind. by rewrite H. Qed.

Lemma bind_Raise {A B} (m : M A) (k : A → M B) w e w1 :
  m w = Raise e w1 → (m ≫= k) w = Raise e w1.
Proof. intros H. unfold mbind, M_bind. by rewrite H. Qed.

Lemma bind_inv_Ok {A B} (m : M A) (k : A → M B) w b w2 :
  (m ≫= k) w = Ok b w2 → ∃ a w1, m w = Ok a w1 ∧ k a w1 = Ok b w2.
Proof.
  unfold mbind, M_bind. destruct (m w) as [a w1|e w1]; [|done]. eauto.
Qed.

Lemma try_except_Ok {A} (body : M A) c h w a w1 :
  body w = Ok a w1 → try_except body c h w = Ok a w1.
Proof. intros H. unfold try_except. by rewrite H. Qed.

Lemma try_except_caught {A} (body : M A) c h w e w1 :
  body w = Raise e w1 → isinstance e c = true →
  try_except body c h w = h e w1.
Proof. intros H Hc. unfold try_except. by rewrite H, Hc. Qed.

Lemma try_except_passed {A} (body : M A) c h w e w1 :
  body w = Raise e w1 → isinstance e c = false →
  try_except body c h w = Raise e w1.
Proof. intros H Hc. unfold try_except. by rewrite H, Hc. Qed.

(** ** The external calls *)

Section Calls.
Context (E : env).

Lemma print_ok w line :
  console E w line = None → print E line w = Ok () (emit line w).
Proof. intros H. unfold print. by rewrite H. Qed.

Lemma print_raises w line e :
  console E w line = Some e → print E line w = Raise e w.
Proof. intros H. unfold print. by rewrite H. Qed.

Lemma time_sleep_ok w secs :
  timer E w secs = None → time_sleep E secs w = Ok () (log (Sleep secs None) w).
Proof. intros H. unfold time_sleep. by rewrite H. Qed.

Lemma time_sleep_raises w secs e :
  timer E w secs = Some e →
  time_sleep E secs w = Raise e (log (Sleep secs (Some e)) w).
Proof. intros H. unfold time_sleep. by rewrite H. Qed.

Lemma replicate_run_ok w ref input o :
  service E w ref input = inr o →
  replicate_run E ref input w = Ok o (log (Run ref input (inr o)) w).
Proof. intros H. unfold replicate_run. by rewrite H. Qed.

Lemma replicate_run_raises w ref input e :
  service E w ref input = inl e →
  replicate_run E ref input w = Raise e (log (Run ref input (inl e)) w).
Proof. intros H. unfold replicate_run. by rewrite H. Qed.

Lemma urlretrieve_ok w url fp body :
  fetch E w url fp = Fetched body →
  urlretrieve E url fp w =
    Ok () (set_fs <[resolve fp := File body]> (log (Urlretrieve url fp (Fetched body)) w)).
Proof. intros H. unfold urlretrieve. by rewrite H. Qed.

Lemma urlretrieve_raises w url fp e part :
  fetch E w url fp = FetchFailed e part →
  urlretrieve E url fp w =
    Raise e (leave part fp (log (Urlretrieve url fp (FetchFailed e part)) w)).
Proof. intros H. unfold urlretrieve. rewrite H. by destruct part. Qed.

Lemma urlretrieve_gone w url fp :
  fetch E w url fp = FetchedAndGone →
  urlretrieve E url fp w = Ok () (log (Urlretrieve url fp FetchedAndGone) w).
Proof. intros H. unfold urlretrieve. by rewrite H. Qed.

Lemma getsize_missing fp w :
  fs w !! resolve fp = None → os_path_getsize fp w = Raise (no_such_file fp) w.
Proof. intros H. unfold os_path_getsize. by rewrite H. Qed.

Lemma getsize_there fp n w :
  fs w !! resolve fp = Some n → os_path_getsize fp w = Ok (node_size n) w.
Proof. intros H. unfold os_path_getsize. rewrite H. by destruct n. Qed.

Lemma getsize_written fp body w :
  os_path_getsize fp (set_fs <[resolve fp := File body]> w)
  = Ok (len body) (set_fs <[resolve fp := File body]> w).
Proof. unfold os_path_getsize. simpl. by rewrite lookup_insert_eq. Qed.

(** ** One item *)

(** With a working console and only catchable failures, the [try]
    statement of an item always completes, in one of the ways of
    [tried]. *)
Lemma try_statement_tried f a p w :
  console_ok E → errors_are_exceptions E →
  ∃ w1, try_except (try_body E f a p) Exception (handler E f) w = Ok () w1
        ∧ tried E (f, a, p) w w1.
Proof.
  intros Hc [Hs Hf]. unfold try_body.
  destruct (service E w model_ref (request a p)) as [e|o] eqn:Hrun.
  - eexists. split.
    + erewrite try_except_caught; [| |by eapply Hs].
      * unfold handler. by apply print_ok.
      * erewrite bind_Raise; [done|]. by apply replicate_run_raises.
    + apply (tried_service_failed E (f, a, p) w e); eauto.
  - set (w1 := log (Run model_ref (request a p) (inr o)) w).
    destruct (fetch E w1 (str o) (os_path_join ASSETS f)) as [body|e part|] eqn:Hfetch.
    + eexists. split.
      * apply try_except_Ok.
        erewrite bind_Ok; [|by apply replicate_run_ok]. cbv zeta.
        erewrite bind_Ok; [|by apply urlretrieve_ok].
        erewrite bind_Ok; [|by apply getsize_written].
        by apply print_ok.
      * by apply (tried_saved E (f, a, p) w o body).
    + eexists. split.
      * erewrite try_except_caught; [| |by eapply Hf].
        -- unfold handler. by apply print_ok.
        -- erewrite bind_Ok; [|by apply replicate_run_ok]. cbv zeta.
           erewrite bind_Raise; [done|]. by apply urlretrieve_raises.
      * apply (tried_download_failed E (f, a, p) w o e part); [done|done|by eapply Hf].
    + destruct (fs w !! resolve (os_path_join ASSETS f)) as [n|] eqn:Hthere.
      * eexists. split.
        -- apply try_except_Ok.
           erewrite bind_Ok; [|by apply replicate_run_ok]. cbv zeta.
           erewrite bind_Ok; [|by apply urlretrieve_gone].
           erewrite bind_Ok; [|by apply getsize_there].
           by apply print_ok.
        -- by apply (tried_readback_stale E (f, a, p) w o n).
      * assert (Hraise :
          (output ← replicate_run E model_ref (request a p);
           let url := str output in
           let filepath := os_path_join ASSETS f in
           urlretrieve E url filepath ;;
           size ← os_path_getsize filepath;
           print E (saved_notice f size)) w
          = Raise (no_such_file (os_path_join ASSETS f))
              (log (Urlretrieve (str o) (os_path_join ASSETS f) FetchedAndGone) w1)).
        { erewrite bind_Ok; [|by apply replicate_run_ok]. cbv zeta.
          erewrite bind_Ok; [|by apply urlretrieve_gone].
          erewrite bind_Raise; [done|]. by apply getsize_missing. }
        eexists. split.
        -- rewrite (try_except_caught _ Exception _ _ _ _ Hraise eq_refl).
           unfold handler. by apply print_ok.
        -- by apply (tried_readback_failed E (f, a, p) w o).
Qed.

Lemma pace_paced images i w :
  console_ok E → timer_ok E →
  pace E images i w = Ok () (paced (len images) i w).
Proof.
  intros Hc Ht. unfold pace, paced. case_bool_decide; [|done].
  erewrite bind_Ok; [|by apply print_ok]. by apply time_sleep_ok.
Qed.

(** The iteration for one item completes, whatever the item's outcome. *)
Lemma loop_body_tried images i f a p w :
  console_ok E → timer_ok E → errors_are_exceptions E →
  ∃ w1, tried E (f, a, p) (emit (progress_notice i (len images) f a) w) w1
        ∧ loop_body E images i (f, a, p) w = Ok () (paced (len images) i w1).
Proof.
  intros Hc Ht He. unfold loop_body.
  destruct (try_statement_tried f a p
              (emit (progress_notice i (len images) f a) w) Hc He) as (w1 & Htry & Hw1).
  exists w1. split; [done|].
  erewrite bind_Ok; [|by apply print_ok].
  erewrite bind_Ok; [|exact Htry].
  by apply pace_paced.
Qed.

(** The generation loop completes and is described by [looped]. *)
Lemma for_enumerate_looped images its i w :
  console_ok E → timer_ok E → errors_are_exceptions E →
  ∃ w', for_enumerate i its (loop_body E images) w = Ok () w'
        ∧ looped E (len images) i its w w'.
Proof.
  intros Hc Ht He. revert i w.
  induction its as [|[[f a] p] its IH]; intros i w.
  - exists w. split; [done|constructor].
  - destruct (loop_body_tried images i f a p w Hc Ht He) as (w1 & Htried & Hbody).
    destruct (IH (i + 1)%Z (paced (len images) i w1)) as (w' & Hrest & Hloop).
    exists w'. split.
    + simpl. erewrite bind_Ok; [|exact Hbody]. exact Hrest.
    + by eapply looped_cons.
Qed.

Lemma generation_loop_looped images w :
  console_ok E → timer_ok E → errors_are_exceptions E →
  ∃ w', generation_loop E images w = Ok () w'
        ∧ looped E (len images) 0 images w w'.
Proof. apply for_enumerate_looped. Qed.

End Calls.

(** ** The summary pass *)

Section Summary.
Context (E : env).

Lemma emit_emits line ls w : emit line (emits ls w) = emits (ls ++ [line]) w.
Proof. unfold emit, emits. simpl. by rewrite <- (assoc_L (++)). Qed.

Lemma emits_nil w : emits [] w = w.
Proof. destruct w. unfold emits. simpl. by rewrite (right_id_L [] (++)). Qed.

Lemma summary_body_line it ls w :
  console_ok E →
  summary_body E it (emits ls w) = Ok () (emits (ls ++ [summary_line (fs w) it]) w).
Proof.
  intros Hc. destruct it as [[f a] p]. unfold summary_body, summary_line.
  unfold mbind, M_bind, os_path_exists, path_exists, os_path_getsize, target_of,
    filepath_of, filename_of. simpl.
  destruct (fs w !! resolve (os_path_join ASSETS f)) as [[sz|c]|] eqn:Hlook; simpl;
    rewrite ?Hlook; rewrite print_ok by apply Hc; by rewrite emit_emits.
Qed.

Lemma for_each_summary its ls w :
  console_ok E →
  for_each its (summary_body E) (emits ls w)
  = Ok () (emits (ls ++ (summary_line (fs w) <$> its)) w).
Proof.
  intros Hc. revert ls. induction its as [|it its IH]; intros ls; simpl.
  - by rewrite (right_id_L [] (++)).
  - erewrite bind_Ok; [|by apply summary_body_line].
    rewrite IH. by rewrite <- (assoc_L (++)).
Qed.

Lemma summary_emits its w :
  console_ok E →
  summary E its w = Ok () (emits (summary_report (fs w) its) w).
Proof.
  intros Hc. unfold summary, summary_report.
  rewrite <- (emits_nil w) at 1.
  erewrite bind_Ok; [|by apply print_ok]. rewrite emit_emits.
  erewrite bind_Ok; [|by apply print_ok]. rewrite emit_emits.
  erewrite bind_Ok; [|by apply print_ok]. rewrite emit_emits.
  erewrite bind_Ok; [|by apply for_each_summary].
  rewrite print_ok by apply Hc. rewrite emit_emits.
  by rewrite <- !(assoc_L (++)).
Qed.

End Summary.

(** ** Directory preparation *)

Section Makedirs.
Context (E : env).

Lemma prepared_refl name w : prepared name w w.
Proof.
  split; [done| |by left|done].
  exists []. by rewrite (right_id_L [] (++)).
Qed.

Lemma prepared_trans name1 name w w1 w2 :
  name1 `prefix_of` name →
  prepared name1 w w1 → prepared name w1 w2 → prepared name w w2.
Proof.
  intros Hpre [Hs1 (cs1 & Hc1 & Hm1) Hf1 Ht1] [Hs2 (cs2 & Hc2 & Hm2) Hf2 Ht2].
  split.
  - congruence.
  - exists (cs1 ++ cs2). split.
    + by rewrite Hc2, Hc1, (assoc_L (++)).
    + by apply Forall_app.
  - intros p.
    destruct (Hf2 p) as [Heq2|(Hnone2 & Hdir2 & Hp2 & Hne2)],
             (Hf1 p) as [Heq1|(Hnone1 & Hdir1 & Hp1 & Hne1)].
    + left. congruence.
    + right. rewrite Heq2. repeat split; try done. by etrans.
    + right. rewrite <- Heq1. done.
    + congruence.
  - auto.
Qed.

Lemma parent_snoc (p : path) x : parent (p ++ [x]) = p.
Proof. unfold parent. apply removelast_last. Qed.

Lemma parent_ne (p : path) : p ≠ [] → parent p ≠ p.
Proof.
  destruct (decide (p = [])) as [->|Hne]; [done|]. intros _.
  destruct (exists_last Hne) as (q & x & ->). rewrite parent_snoc.
  intros Heq. apply (f_equal length) in Heq. rewrite length_app in Heq.
  simpl in Heq. lia.
Qed.

Lemma mkdir_error_None m p :
  mkdir_error m p = None →
  p ≠ [] ∧ m !! p = None ∧ (parent p = [] ∨ path_isdir m (parent p) = true).
Proof.
  unfold mkdir_error. destruct p as [|x p]; [done|].
  unfold path_exists. case_bool_decide as Hex; [done|].
  intros H. split; [done|]. split.
  - destruct (m !! (x :: p)) eqn:Hl; [|done]. exfalso. apply Hex. eauto.
  - destruct (parent (x :: p)) as [|y q] eqn:Hpar; [by left|]. right.
    revert H. unfold path_isdir. by destruct (m !! (y :: q)) as [[]|].
Qed.

Lemma tree_shaped_mkdir m p :
  mkdir_error m p = None → tree_shaped m → tree_shaped (<[p := Dir 0]> m).
Proof.
  intros (Hne & Hnone & Hpar)%mkdir_error_None Htree q n Hq.
  assert (Hkeep : ∀ r, path_isdir m r = true → path_isdir (<[p := Dir 0]> m) r = true).
  { intros r Hr. unfold path_isdir in *.
    destruct (decide (p = r)) as [->|Hpr]; [by rewrite lookup_insert_eq|].
    by rewrite lookup_insert_ne. }
  destruct (decide (p = q)) as [->|Hpq].
  - destruct Hpar as [Hpar|Hpar]; [by left|right; by apply Hkeep].
  - rewrite lookup_insert_ne in Hq by done.
    destruct (Htree q n Hq) as [Hpar'|Hpar']; [by left|right; by apply Hkeep].
Qed.

Lemma os_mkdir_prepared p w : prepared p w (final (os_mkdir E p w)).
Proof.
  unfold os_mkdir.
  set (r := match mkdir_refused E w p with
            | Some msg => Some (Exn OSError msg)
            | None => mkdir_error (fs w) p
            end).
  assert (Hr : r = None → mkdir_error (fs w) p = None).
  { subst r. by destruct (mkdir_refused E w p). }
  destruct r as [e|]; simpl.
  - split; simpl; [done| |by left|done].
    exists [Mkdir p (Some e)]. split; [done|]. by repeat constructor.
  - specialize (Hr eq_refl).
    destruct (mkdir_error_None _ _ Hr) as (Hne & Hnone & Hpar).
    split; simpl; [done| | |].
    + exists [Mkdir p None]. split; [done|]. by repeat constructor.
    + intros q. destruct (decide (p = q)) as [<-|Hpq].
      * right. by rewrite lookup_insert_eq.
      * left. by rewrite lookup_insert_ne.
    + by apply tree_shaped_mkdir.
Qed.

Lemma mkdir_leaf_final p ok w :
  final (mkdir_leaf E p ok w) = final (os_mkdir E p w).
Proof.
  unfold mkdir_leaf, try_except.
  destruct (os_mkdir E p w) as [[] w1|e w1]; [done|].
  destruct (isinstance e OSError); [|done].
  by destruct (negb ok || negb (path_isdir (fs w1) p)).
Qed.

Lemma mkdir_leaf_prepared p ok w : prepared p w (final (mkdir_leaf E p ok w)).
Proof. rewrite mkdir_leaf_final. apply os_mkdir_prepared. Qed.

Lemma final_bind {A B} (m : M A) (k : A → M B) w :
  final ((m ≫= k) w) = final (m w)
  ∨ ∃ a w1, m w = Ok a w1 ∧ final ((m ≫= k) w) = final (k a w1).
Proof.
  unfold mbind, M_bind. destruct (m w) as [a w1|e w1]; [right; eauto|by left].
Qed.

Lemma make_head_final rec head tail w :
  final (make_head rec head tail w) = w
  ∨ final (make_head rec head tail w) = final (rec w).
Proof.
  unfold make_head.
  destruct (negb (bool_decide (head = [])) && negb (path_exists (fs w) head));
    [|by left].
  right. unfold mbind, M_bind, try_except.
  destruct (rec w) as [[] w1|e w1]; [done|].
  by destruct (isinstance e FileExistsError).
Qed.

(** Whatever [os.makedirs] ends in, all it did was to add directories on
    the way to [name]. *)
Lemma makedirs_rev_prepared rname ok w :
  prepared (reverse rname) w (final (makedirs_rev E rname ok w)).
Proof.
  revert w. induction rname as [|tail rhead IH]; intros w.
  - apply mkdir_leaf_prepared.
  - assert (Hpre : reverse rhead `prefix_of` reverse (tail :: rhead)).
    { rewrite reverse_cons. by apply prefix_app_r. }
    assert (Hhead : prepared (reverse (tail :: rhead)) w
              (final (make_head (makedirs_rev E rhead ok) (reverse rhead) tail w))).
    { destruct (make_head_final (makedirs_rev E rhead ok) (reverse rhead) tail w)
        as [->| ->]; [apply prepared_refl|].
      eapply prepared_trans; [exact Hpre|apply IH|apply prepared_refl]. }
    cbn [makedirs_rev].
    destruct (final_bind (make_head (makedirs_rev E rhead ok) (reverse rhead) tail)
                (λ returned : bool, if returned then mret ()
                   else mkdir_leaf E (reverse (tail :: rhead)) ok) w)
      as [->|(returned & w1 & Hw1 & ->)]; [done|].
    rewrite Hw1 in Hhead. simpl in Hhead.
    destruct returned; [done|].
    eapply prepared_trans; [reflexivity|exact Hhead|apply mkdir_leaf_prepared].
Qed.

Lemma mkdir_error_exists m p :
  p ≠ [] → is_Some (m !! p) →
  ∃ e, mkdir_error m p = Some e ∧ isinstance e OSError = true.
Proof.
  intros Hne Hsome. destruct p as [|x p]; [done|]. unfold mkdir_error, path_exists.
  rewrite bool_decide_eq_true_2 by done. eauto.
Qed.

Lemma mkdir_error_free m p :
  p ≠ [] → m !! p = None → parent p = [] ∨ path_isdir m (parent p) = true →
  mkdir_error m p = None.
Proof.
  intros Hne Hnone Hpar. destruct p as [|x p]; [done|]. unfold mkdir_error, path_exists.
  rewrite bool_decide_eq_false_2 by (rewrite Hnone; by intros [? ?]).
  destruct Hpar as [->|Hpar]; [done|].
  destruct (parent (x :: p)) as [|y q]; [done|].
  unfold path_isdir in Hpar. by destruct (m !! (y :: q)) as [[]|].
Qed.

(** On a directory that is already there, the leaf step swallows the
    error of [os.mkdir], whatever it is. *)
Lemma mkdir_leaf_existing p w :
  p ≠ [] → path_isdir (fs w) p = true →
  ∃ e, mkdir_leaf E p true w = Ok () (log (Mkdir p (Some e)) w).
Proof.
  intros Hne Hdir.
  assert (Hsome : is_Some (fs w !! p)).
  { unfold path_isdir in Hdir. destruct (fs w !! p); [eauto|done]. }
  destruct (mkdir_error_exists _ _ Hne Hsome) as (e0 & He0 & Hos0).
  unfold mkdir_leaf, try_except, os_mkdir.
  destruct (mkdir_refused E w p) as [msg|].
  - exists (Exn OSError msg). simpl. by rewrite Hdir.
  - exists e0. rewrite He0. cbv beta iota zeta. rewrite Hos0. simpl. by rewrite Hdir.
Qed.

Lemma mkdir_leaf_creates p ok w :
  mkdir_refused E w p = None → p ≠ [] → fs w !! p = None →
  parent p = [] ∨ path_isdir (fs w) (parent p) = true →
  mkdir_leaf E p ok w = Ok () (set_fs <[p := Dir 0]> (log (Mkdir p None) w)).
Proof.
  intros Hall Hne Hnone Hpar. unfold mkdir_leaf, try_except, os_mkdir.
  by rewrite Hall, (mkdir_error_free _ _ Hne Hnone Hpar).
Qed.

Lemma reverse_cons_ne (tail : string) rhead : reverse (tail :: rhead) ≠ [].
Proof. rewrite reverse_cons. by destruct (reverse rhead). Qed.

Lemma parent_reverse_cons (tail : string) rhead :
  parent (reverse (tail :: rhead)) = reverse rhead.
Proof. rewrite reverse_cons. apply parent_snoc. Qed.

(** [os.makedirs(name, exist_ok=True)] on a directory that exists raises
    nothing and leaves the file system as it is, also when the operating
    system refuses [mkdir]. *)
Lemma makedirs_rev_there rname w :
  rname ≠ [] → path_isdir (fs w) (reverse rname) = true →
  parent (reverse rname) = [] ∨ path_exists (fs w) (parent (reverse rname)) = true →
  ∃ e, makedirs_rev E rname true w = Ok () (log (Mkdir (reverse rname) (Some e)) w).
Proof.
  intros Hne Hdir Hpar. destruct rname as [|tail rhead]; [done|].
  destruct (mkdir_leaf_existing _ w (reverse_cons_ne tail rhead) Hdir) as (e & Hleaf).
  exists e.
  assert (Hguard : negb (bool_decide (reverse rhead = []))
                   && negb (path_exists (fs w) (reverse rhead)) = false).
  { rewrite parent_reverse_cons in Hpar. destruct Hpar as [->| ->]; [done|].
    by rewrite andb_false_r. }
  cbn [makedirs_rev]. erewrite bind_Ok with (a := false) (w1 := w); [exact Hleaf|].
  unfold make_head. by rewrite Hguard.
Qed.

Lemma tree_shaped_parent m (p : path) :
  tree_shaped m → is_Some (m !! p) →
  parent p = [] ∨ path_exists m (parent p) = true.
Proof.
  intros Htree (n & Hn). destruct (Htree _ _ Hn) as [Hpar|Hpar]; [by left|right].
  unfold path_exists. apply bool_decide_eq_true.
  unfold path_isdir in Hpar. destruct (m !! parent p); [eauto|done].
Qed.

Lemma path_isdir_Some m (p : path) : path_isdir m p = true → is_Some (m !! p).
Proof. unfold path_isdir. destruct (m !! p); [eauto|done]. Qed.

Lemma makedirs_rev_existing rname w :
  rname ≠ [] → tree_shaped (fs w) → path_isdir (fs w) (reverse rname) = true →
  ∃ w', makedirs_rev E rname true w = Ok () w'
        ∧ fs w' = fs w ∧ stdout w' = stdout w.
Proof.
  intros Hne Htree Hdir.
  destruct (makedirs_rev_there rname w Hne Hdir) as (e & He).
  { apply tree_shaped_parent; [done|]. by apply path_isdir_Some. }
  eexists. split; [exact He|done].
Qed.

(** A directory [os.makedirs] returns normally on is there afterwards. *)
Lemma makedirs_rev_post tail rhead ok w w' :
  tail ≠ "." →
  makedirs_rev E (tail :: rhead) ok w = Ok () w' →
  path_isdir (fs w') (reverse (tail :: rhead)) = true.
Proof.
  intros Hdot Hrun. cbn [makedirs_rev] in Hrun.
  apply bind_inv_Ok in Hrun as (returned & wm & Hhead & Hleaf).
  assert (returned = false) as ->.
  { unfold make_head in Hhead.
    destruct (negb (bool_decide (reverse rhead = []))
              && negb (path_exists (fs w) (reverse rhead))); [|congruence].
    apply bind_inv_Ok in Hhead as ([] & w2 & _ & Hret).
    injection Hret as <- _. by apply bool_decide_eq_false_2. }
  unfold mkdir_leaf, try_except in Hleaf.
  destruct (os_mkdir E (reverse (tail :: rhead)) wm) as [[] w2|e w2] eqn:Hmk.
  - injection Hleaf as <-. unfold os_mkdir in Hmk.
    destruct (match mkdir_refused E wm (reverse (tail :: rhead)) with
              | Some msg => Some (Exn OSError msg)
              | None => mkdir_error (fs wm) (reverse (tail :: rhead))
              end); [done|].
    injection Hmk as <-. unfold path_isdir. simpl. by rewrite lookup_insert_eq.
  - destruct (isinstance e OSError); [|done].
    destruct (path_isdir (fs w2) (reverse (tail :: rhead))) eqn:Hd.
    + rewrite orb_false_r in Hleaf. destruct ok; [|done]. by injection Hleaf as <-.
    + by rewrite orb_true_r in Hleaf.
Qed.

(** When nothing refuses and no file is in the way, [os.makedirs] makes
    the directory. *)
Lemma makedirs_rev_creates rname ok w :
  mkdir_allowed E → rname ≠ [] → "." ∉ rname →
  tree_shaped (fs w) → unobstructed (fs w) (reverse rname) →
  ok = true →
  ∃ w', makedirs_rev E rname ok w = Ok () w'
        ∧ path_isdir (fs w') (reverse rname) = true.
Proof.
  intros Hall Hne Hdot Htree Hfree ->. revert w Hne Hdot Htree Hfree.
  induction rname as [|tail rhead IH]; intros w Hne Hdot Htree Hfree; [done|].
  assert (Hpre : reverse rhead `prefix_of` reverse (tail :: rhead)).
  { rewrite reverse_cons. by apply prefix_app_r. }
  assert (Hleaf : ∀ w1, prepared (reverse rhead) w w1 ∨ w1 = w →
            reverse rhead = [] ∨ path_isdir (fs w1) (reverse rhead) = true →
            (∀ c, fs w1 !! reverse (tail :: rhead) ≠ Some (File c)) →
            ∃ w', mkdir_leaf E (reverse (tail :: rhead)) true w1 = Ok () w'
                  ∧ path_isdir (fs w') (reverse (tail :: rhead)) = true).
  { intros w1 _ Hhead Hnofile.
    destruct (fs w1 !! reverse (tail :: rhead)) as [[sz|c]|] eqn:Hl.
    - assert (Hd : path_isdir (fs w1) (reverse (tail :: rhead)) = true)
        by (unfold path_isdir; by rewrite Hl).
      destruct (mkdir_leaf_existing _ w1 (reverse_cons_ne tail rhead) Hd) as (e & He).
      eexists. split; [exact He|]. done.
    - by destruct (Hnofile c).
    - eexists. split.
      + apply mkdir_leaf_creates; [apply Hall|apply reverse_cons_ne|done|].
        by rewrite parent_reverse_cons.
      + unfold path_isdir. simpl. by rewrite lookup_insert_eq. }
  cbn [makedirs_rev].
  destruct (negb (bool_decide (reverse rhead = []))
            && negb (path_exists (fs w) (reverse rhead))) eqn:Hguard.
  - pose proof Hguard as Hguard'.
    apply andb_true_iff in Hguard as [Hnonempty Hmissing].
    apply negb_true_iff, bool_decide_eq_false in Hnonempty.
    assert (Hrhead : rhead ≠ []) by (intros ->; by apply Hnonempty).
    destruct (IH w) as (w1 & Hrec & Hdir1); [done|set_solver|done| |].
    { intros p c Hp. apply Hfree. by etrans. }
    pose proof (makedirs_rev_prepared rhead true w) as Hprep.
    rewrite Hrec in Hprep. simpl in Hprep.
    erewrite bind_Ok with (a := false) (w1 := w1).
    2:{ unfold make_head. rewrite Hguard'.
        erewrite bind_Ok; [|by apply try_except_Ok].
        unfold mret, M_ret. by rewrite bool_decide_eq_false_2 by set_solver. }
    apply Hleaf; [by left|by right|].
    intros c Hc.
    destruct (prepared_fs _ _ _ Hprep (reverse (tail :: rhead)))
      as [Heq|(_ & Hnew & _)]; [|congruence].
    rewrite Heq in Hc. by apply (Hfree _ c (reflexivity _)).
  - erewrite bind_Ok with (a := false) (w1 := w);
      [|unfold make_head; by rewrite Hguard].
    apply Hleaf; [by right| |].
    + apply andb_false_iff in Hguard as [Hempty|Hthere].
      * left. by apply negb_false_iff, bool_decide_eq_true in Hempty.
      * right. apply negb_false_iff in Hthere. unfold path_exists in Hthere.
        apply bool_decide_eq_true in Hthere as (n & Hn).
        unfold path_isdir. rewrite Hn. destruct n as [sz|c]; [done|].
        by destruct (Hfree _ c Hpre).
    + intros c. by apply (Hfree _ c).
Qed.

(** In a tree-shaped file system the ancestors of an entry are
    directories. *)
Lemma tree_shaped_ancestors m (p : path) :
  tree_shaped m → is_Some (m !! p) →
  ∀ q, q `prefix_of` p → q ≠ [] → q ≠ p → path_isdir m q = true.
Proof.
  intros Htree. induction p as [|x p IH] using rev_ind; intros Hsome q Hpre Hq Hqp.
  - apply prefix_nil_inv in Hpre. done.
  - destruct Hsome as (n & Hn).
    destruct (Htree _ _ Hn) as [Hpar|Hpar]; rewrite parent_snoc in Hpar.
    + subst p. destruct Hpre as (k & Hk). destruct q as [|y q]; [done|].
      simpl in Hk. injection Hk as -> Hk. by destruct q.
    + destruct Hpre as (k & Hk).
      destruct k as [|z k _] using rev_ind.
      { rewrite (right_id_L [] (++)) in Hk. done. }
      rewrite (assoc_L (++)) in Hk. apply app_inj_tail in Hk as [-> ->].
      destruct k as [|z' k].
      * by rewrite (right_id_L [] (++)) in Hpar.
      * apply IH; [|by apply prefix_app_r|done|].
        -- unfold path_isdir in Hpar. destruct (m !! (q ++ z' :: k)); [eauto|done].
        -- intros Heq. apply (f_equal length) in Heq. rewrite length_app in Heq.
           simpl in Heq. lia.
Qed.

End Makedirs.

(** ** Paths of the items *)

Lemma components_nil cur : components cur EmptyString = flush cur.
Proof. done. Qed.

Lemma components_cons cur c s :
  components cur (String c s)
  = if is_sep c then flush cur ++ components EmptyString s
    else components (cur +:+ String c EmptyString) s.
Proof. done. Qed.

Lemma append_cons x (s t : string) : String x s +:+ t = String x (s +:+ t).
Proof. done. Qed.

Lemma append_snoc (s t : string) c :
  (s +:+ String c EmptyString) +:+ t = s +:+ String c t.
Proof. induction s as [|x s IH]; [done|]. by rewrite !append_cons, IH. Qed.

Lemma append_empty_r (s : string) : s +:+ EmptyString = s.
Proof. induction s as [|x s IH]; [done|]. by rewrite append_cons, IH. Qed.

(** Splitting goes through a separator. *)
Lemma components_sep cur a b c :
  is_sep c = true →
  components cur (a +:+ String c b) = components cur a ++ components EmptyString b.
Proof.
  intros Hc. revert cur. induction a as [|x a IH]; intros cur.
  - change (EmptyString +:+ String c b) with (String c b).
    by rewrite components_cons, Hc, components_nil.
  - rewrite append_cons, !components_cons. destruct (is_sep x).
    + by rewrite IH, (assoc_L (++)).
    + apply IH.
Qed.

(** A name without separators is one component. *)
Lemma components_plain cur f :
  forallb (λ c, negb (is_sep c)) (list_ascii_of_string f) = true →
  components cur f = flush (cur +:+ f).
Proof.
  revert cur. induction f as [|x f IH]; intros cur Hf.
  - by rewrite components_nil, append_empty_r.
  - simpl in Hf. apply andb_true_iff in Hf as [Hx Hf].
    rewrite components_cons. apply negb_true_iff in Hx. rewrite Hx.
    by rewrite IH, append_snoc.
Qed.

Lemma plain_name_components f :
  plain_name f = true → components EmptyString f = [f].
Proof.
  unfold plain_name. intros Hf.
  apply andb_true_iff in Hf as [Hf Hall].
  apply andb_true_iff in Hf as [Hf _].
  apply andb_true_iff in Hf as [Hne _].
  apply negb_true_iff, bool_decide_eq_false in Hne.
  rewrite components_plain.
  - change (EmptyString +:+ f) with f. unfold flush. by rewrite bool_decide_eq_false_2.
  - clear Hne. induction (list_ascii_of_string f) as [|x l IH]; [done|].
    simpl in *. apply andb_true_iff in Hall as [Hx Hl].
    apply andb_true_iff in Hx as [Hx _]. by rewrite Hx, IH.
Qed.

Lemma join_ASSETS f : os_path_join ASSETS f = ASSETS +:+ String backslash f.
Proof. by vm_compute. Qed.

(** An item with a plain name is stored directly in the output directory. *)
Lemma target_plain it :
  plain_name (filename_of it) = true →
  target_of it = resolve ASSETS ++ [filename_of it].
Proof.
  intros Hf. unfold target_of, filepath_of, resolve.
  rewrite join_ASSETS, components_sep by (by vm_compute).
  by rewrite (plain_name_components (filename_of it)).
Qed.

Lemma target_not_prefix it :
  plain_name (filename_of it) = true →
  ¬ target_of it `prefix_of` resolve ASSETS.
Proof.
  intros Hf Hpre. rewrite target_plain in Hpre by done.
  apply prefix_length in Hpre. rewrite length_app in Hpre. simpl in Hpre. lia.
Qed.

(** Items with plain, distinct names are stored at distinct places. *)
Lemma targets_NoDup its :
  Forall (λ it, plain_name (filename_of it) = true) its →
  NoDup (filename_of <$> its) → NoDup (target_of <$> its).
Proof.
  intros Hplain Hnd.
  assert (Heq : target_of <$> its = (λ f, resolve ASSETS ++ [f]) <$> (filename_of <$> its)).
  { rewrite <- list_fmap_compose. apply Forall_fmap_ext_1.
    eapply Forall_impl; [exact Hplain|]. intros it Hit. by apply target_plain. }
  rewrite Heq. apply NoDup_fmap_2; [|done].
  intros f g Hfg. apply app_inv_head in Hfg. by injection Hfg.
Qed.

(** ** What one iteration does to the world *)

Section Loop.
Context (E : env).

Lemma service_requests_app cs1 cs2 :
  service_requests (cs1 ++ cs2) = service_requests cs1 ++ service_requests cs2.
Proof. apply omap_app. Qed.

Lemma beats_app cs1 cs2 : beats (cs1 ++ cs2) = beats cs1 ++ beats cs2.
Proof. apply omap_app. Qed.

Lemma sleeps_app cs1 cs2 : sleeps (cs1 ++ cs2) = sleeps cs1 ++ sleeps cs2.
Proof. apply omap_app. Qed.

Lemma sleeps_beats cs : sleeps cs = omap delay_of (beats cs).
Proof.
  induction cs as [|c cs IH]; [done|].
  destruct c; simpl; by rewrite ?IH.
Qed.

(** The calls of one [try] statement: one request, then at most one
    download. *)
Lemma tried_calls it w w1 :
  tried E it w w1 →
  ∃ cs, calls w1 = calls w ++ cs
        ∧ service_requests cs = [request_of it]
        ∧ beats cs = [Request (input_of it)].
Proof.
  intros [e Hs He|o e part Hs w0 Hf He|o body Hs w0 Hf
          |o Hs w0 Hf Hgone|o n Hs w0 Hf Hstale].
  - by exists [Run model_ref (input_of it) (inl e)].
  - exists [Run model_ref (input_of it) (inr o);
            Urlretrieve (str o) (filepath_of it) (FetchFailed e part)].
    split; [|done]. destruct part; simpl; by rewrite <- (assoc_L (++)).
  - exists [Run model_ref (input_of it) (inr o);
            Urlretrieve (str o) (filepath_of it) (Fetched body)].
    split; [|done]. simpl. by rewrite <- (assoc_L (++)).
  - exists [Run model_ref (input_of it) (inr o);
            Urlretrieve (str o) (filepath_of it) FetchedAndGone].
    split; [|done]. simpl. by rewrite <- (assoc_L (++)).
  - exists [Run model_ref (input_of it) (inr o);
            Urlretrieve (str o) (filepath_of it) FetchedAndGone].
    split; [|done]. simpl. by rewrite <- (assoc_L (++)).
Qed.

(** The [try] statement prints one line and touches no entry but the
    item's own, where it can only put a file. *)
Lemma tried_stdout it w w1 :
  tried E it w w1 → ∃ line, stdout w1 = stdout w ++ [line].
Proof.
  intros [e Hs He|o e part Hs w0 Hf He|o body Hs w0 Hf
          |o Hs w0 Hf Hgone|o n Hs w0 Hf Hstale]; simpl; eauto.
  destruct part; simpl; eauto.
Qed.

Lemma tried_fs it w w1 p :
  tried E it w w1 →
  fs w1 !! p = fs w !! p
  ∨ (p = target_of it ∧ ∃ b, fs w1 !! p = Some (File b)).
Proof.
  intros [e Hs He|o e part Hs w0 Hf He|o body Hs w0 Hf
          |o Hs w0 Hf Hgone|o n Hs w0 Hf Hstale]; simpl.
  - by left.
  - destruct part as [b|]; simpl; [|by left].
    destruct (decide (p = target_of it)) as [->|Hne].
    + right. split; [done|]. exists b. apply lookup_insert_eq.
    + left. by apply lookup_insert_ne.
  - destruct (decide (p = target_of it)) as [->|Hne].
    + right. split; [done|]. exists body. apply lookup_insert_eq.
    + left. by apply lookup_insert_ne.
  - by left.
  - by left.
Qed.

Lemma paced_fs n i w : fs (paced n i w) = fs w.
Proof. unfold paced. by case_bool_decide. Qed.

Lemma paced_calls n i w :
  calls (paced n i w)
  = calls w ++ (if bool_decide (i < n - 1)%Z then [Sleep 65 None] else []).
Proof.
  unfold paced. case_bool_decide; simpl; [done|].
  by rewrite (right_id_L [] (++)).
Qed.

Lemma paced_stdout n i w :
  stdout (paced n i w)
  = stdout w ++ (if bool_decide (i < n - 1)%Z then [waiting_notice] else []).
Proof.
  unfold paced. case_bool_decide; simpl; [done|].
  by rewrite (right_id_L [] (++)).
Qed.

(** ** What the loop does to the world *)

(** The calls of the loop: the requests of the items in order, paced by
    the delays. *)
Lemma looped_calls n i its w w' :
  looped E n i its w w' → (i + len its = n)%Z →
  ∃ cs, calls w' = calls w ++ cs
        ∧ service_requests cs = request_of <$> its
        ∧ beats cs = rhythm its.
Proof.
  induction 1 as [i w|i it its w w1 w' Htried Hloop IH]; intros Hn.
  - exists []. by rewrite (right_id_L [] (++)).
  - destruct (tried_calls _ _ _ Htried) as (cs1 & Hcs1 & Hreq1 & Hbeat1).
    destruct IH as (cs2 & Hcs2 & Hreq2 & Hbeat2).
    { unfold len in *. simpl in Hn. lia. }
    rewrite paced_calls in Hcs2. simpl in Hcs1.
    exists (cs1 ++ (if bool_decide (i < n - 1)%Z then [Sleep 65 None] else []) ++ cs2).
    split; [|split].
    + rewrite Hcs2, Hcs1. by rewrite <- !(assoc_L (++)).
    + rewrite !service_requests_app, Hreq1, Hreq2.
      by case_bool_decide.
    + rewrite !beats_app, Hbeat1, Hbeat2. simpl.
      case_bool_decide as Hlast; destruct its as [|it' its]; simpl; try done.
      * unfold len in *. simpl in *. lia.
      * unfold len in *. simpl in *. lia.
Qed.

Lemma looped_stdout n i its w w' :
  looped E n i its w w' → ∃ ls, stdout w' = stdout w ++ ls.
Proof.
  induction 1 as [i w|i it its w w1 w' Htried Hloop (ls & IH)].
  - exists []. by rewrite (right_id_L [] (++)).
  - destruct (tried_stdout _ _ _ Htried) as (line & Hline).
    rewrite paced_stdout, Hline in IH. simpl in IH.
    eexists. rewrite IH. by rewrite <- !(assoc_L (++)).
Qed.

(** The loop touches only the entries of its items, and where it touches
    one it leaves a file. *)
Lemma looped_fs n i its w w' p :
  looped E n i its w w' →
  fs w' !! p = fs w !! p
  ∨ (p ∈ target_of <$> its ∧ ∃ b, fs w' !! p = Some (File b)).
Proof.
  induction 1 as [i w|i it its w w1 w' Htried Hloop IH]; [by left|].
  rewrite paced_fs in IH.
  destruct IH as [IH|(Hin & b & Hb)].
  - rewrite IH. destruct (tried_fs _ _ _ p Htried) as [Hp|(-> & b & Hb)].
    + by left.
    + right. split; [rewrite fmap_cons; by left|eauto].
  - right. split; [rewrite fmap_cons; by right|eauto].
Qed.

Lemma len_cons {A} (x : A) l : len (x :: l) = (len l + 1)%Z.
Proof. unfold len. simpl. lia. Qed.

Lemma len_app {A} (l k : list A) : len (l ++ k) = (len l + len k)%Z.
Proof. unfold len. rewrite length_app. lia. Qed.

(** The loop over a list, cut at one of its items. *)
Lemma looped_split n i pre it post w w' :
  looped E n i (pre ++ it :: post) w w' →
  ∃ wm w1,
    looped E n i pre w wm
    ∧ tried E it (emit (progress_notice (i + len pre) n (filename_of it)
                          (aspect_of it)) wm) w1
    ∧ looped E n (i + len pre + 1) post (paced n (i + len pre) w1) w'.
Proof.
  revert i w. induction pre as [|x pre IH]; intros i w Hloop.
  - inversion Hloop as [|i' it' its' w0 w1 w'' Htried Hrest]; subst.
    exists w, w1. replace (i + len [])%Z with i by (unfold len; simpl; lia).
    split; [constructor|done].
  - inversion Hloop as [|i' it' its' w0 w1 w'' Htried Hrest]; subst.
    destruct (IH _ _ Hrest) as (wm & w2 & Hpre & Htried2 & Hpost).
    exists wm, w2.
    replace (i + len (x :: pre))%Z with (i + 1 + len pre)%Z by (rewrite len_cons; lia).
    split; [by eapply looped_cons|done].
Qed.

Lemma served_emit line w : served (emit line w) = served w.
Proof. done. Qed.

Lemma served_paced n i w : served (paced n i w) = served w.
Proof.
  unfold served. rewrite paced_calls, service_requests_app.
  case_bool_decide; simpl; by rewrite (right_id_L [] (++)).
Qed.

Lemma looped_served n i its w w' :
  looped E n i its w w' → served w' = served w + length its.
Proof.
  induction 1 as [i w|i it its w w1 w' Htried Hloop IH]; [simpl; lia|].
  destruct (tried_calls _ _ _ Htried) as (cs & Hcs & Hreq & _).
  rewrite IH, served_paced. unfold served.
  rewrite Hcs, service_requests_app, Hreq, length_app. simpl. lia.
Qed.

(** An item whose request the service answers and whose download goes
    through ends with its file written. *)
Lemma tried_saved_inv it w w1 :
  tried E it w w1 →
  (∃ o, service E w model_ref (input_of it) = inr o) →
  download_succeeds E →
  ∃ o b, w1 = emit (saved_notice (filename_of it) (len b))
                (set_fs <[target_of it := File b]>
                   (log (Urlretrieve (str o) (filepath_of it) (Fetched b))
                      (log (Run model_ref (input_of it) (inr o)) w))).
Proof.
  intros [e Hs He|o e part Hs w0 Hf He|o body Hs w0 Hf
          |o Hs w0 Hf Hgone|o n Hs w0 Hf Hstale] (o' & Ho') Hdl.
  - congruence.
  - destruct (Hdl w0 (str o) (filepath_of it)) as (b & Hb). congruence.
  - by exists o, body.
  - destruct (Hdl w0 (str o) (filepath_of it)) as (b & Hb). congruence.
  - destruct (Hdl w0 (str o) (filepath_of it)) as (b & Hb). congruence.
Qed.

(** An item whose request the service refuses ends with the failure
    notice and nothing else. *)
Lemma tried_failed_inv it w w1 e :
  tried E it w w1 →
  service E w model_ref (input_of it) = inl e →
  w1 = emit (fail_notice (filename_of it) e)
         (log (Run model_ref (input_of it) (inl e)) w).
Proof.
  intros [e' Hs He|o e' part Hs w0 Hf He|o body Hs w0 Hf
          |o Hs w0 Hf Hgone|o n Hs w0 Hf Hstale] Hfail; congruence.
Qed.

End Loop.

(** ** The whole run *)

Section Run.
Context (E : env).

Lemma os_makedirs_prepared w :
  prepared (resolve ASSETS) w (final (os_makedirs E ASSETS true w)).
Proof.
  unfold os_makedirs.
  rewrite <- (reverse_involutive (resolve ASSETS)) at 1.
  apply makedirs_rev_prepared.
Qed.

(** When the directory is prepared and the environment behaves, the run
    completes: the loop as [looped] describes it, then the summary. *)
Lemma script_looped its w w0 :
  console_ok E → timer_ok E → errors_are_exceptions E →
  os_makedirs E ASSETS true w = Ok () w0 →
  ∃ w1, looped E (len its) 0 its w0 w1
        ∧ script E its w = Ok () (emits (summary_report (fs w1) its) w1).
Proof.
  intros Hc Ht He Hprep.
  destruct (generation_loop_looped E its w0 Hc Ht He) as (w1 & Hloop & Hlooped).
  exists w1. split; [done|]. unfold script.
  erewrite bind_Ok; [|exact Hprep].
  erewrite bind_Ok; [|exact Hloop].
  by apply summary_emits.
Qed.

End Run.

(** ** The rhythm of a run *)

Lemma mkdirs_silent cs :
  Forall (λ c, is_mkdir c = true) cs →
  service_requests cs = [] ∧ beats cs = [] ∧ sleeps cs = [].
Proof.
  induction 1 as [|c cs Hc _ (IH1 & IH2 & IH3)]; [done|].
  by destruct c.
Qed.

Lemma rhythm_delays its :
  omap delay_of (rhythm its) = replicate (length its - 1) 65%Z.
Proof.
  induction its as [|it its IH]; [done|].
  destruct its as [|it' its]; [done|].
  transitivity (65%Z :: omap delay_of (rhythm (it' :: its))); [done|].
  rewrite IH. simpl. by rewrite Nat.sub_0_r.
Qed.

Lemma rhythm_last its secs : last (rhythm its) ≠ Some (Delay secs).
Proof.
  induction its as [|it its IH]; [done|].
  destruct its as [|it' its]; [done|].
  change (rhythm (it :: it' :: its))
    with (Request (input_of it) :: Delay 65 :: rhythm (it' :: its)).
  destruct (rhythm (it' :: its)) as [|b bs] eqn:Hr; [done|].
  exact IH.
Qed.

(** The calls of a whole run that behaves. *)
Lemma succeeds_Ok (r : outcome unit) :
  succeeds r = true → ∃ w, r = Ok () w.
Proof. destruct r as [[] w|e w]; [eauto|done]. Qed.

Lemma script_calls E its w :
  console_ok E → timer_ok E → errors_are_exceptions E →
  succeeds (os_makedirs E ASSETS true w) = true →
  ∃ w' cs, script E its w = Ok () w' ∧ calls w' = calls w ++ cs
           ∧ service_requests cs = request_of <$> its
           ∧ beats cs = rhythm its.
Proof.
  intros Hc Ht He (w0 & Hprep)%succeeds_Ok.
  destruct (script_looped E its w w0 Hc Ht He Hprep) as (w1 & Hloop & Hrun).
  pose proof (os_makedirs_prepared E w) as Hp. rewrite Hprep in Hp. simpl in Hp.
  destruct (prepared_calls _ _ _ Hp) as (cs0 & Hcs0 & Hmk).
  destruct (mkdirs_silent _ Hmk) as (Hreq0 & Hbeat0 & _).
  destruct (looped_calls E _ _ _ _ _ Hloop) as (cs1 & Hcs1 & Hreq1 & Hbeat1); [lia|].
  eexists _, (cs0 ++ cs1). split; [exact Hrun|]. simpl. split; [|split].
  - by rewrite Hcs1, Hcs0, (assoc_L (++)).
  - by rewrite service_requests_app, Hreq0, Hreq1.
  - by rewrite beats_app, Hbeat0, Hbeat1.
Qed.

(** * The claims *)

(** C1. Whatever the service and the downloads answer, a run whose
    directory preparation succeeds and whose console and timer work sends
    the service one request per item of the list, in the order of the
    list: the requests of the run are exactly the list's, so a failure of
    one item changes nothing for the items after it. *)
Theorem one_request_per_item E its w :
  console_ok E → timer_ok E → errors_are_exceptions E →
  succeeds (os_makedirs E ASSETS true w) = true →
  ∃ w' cs, script E its w = Ok () w' ∧ calls w' = calls w ++ cs
           ∧ service_requests cs = request_of <$> its.
Proof.
  intros Hc Ht He Hprep.
  destruct (script_calls E its w Hc Ht He Hprep) as (w' & cs & ? & ? & ? & _).
  by exists w', cs.
Qed.

Lemma flaky_console k : console_ok (flaky k).
Proof. intros w line. reflexivity. Qed.

Lemma flaky_timer k : timer_ok (flaky k).
Proof. intros w secs. reflexivity. Qed.

Lemma flaky_errors k : errors_are_exceptions (flaky k).
Proof.
  split.
  - intros w ref input e. simpl. case_decide; [|done]. by intros [= <-].
  - intros w url fp e part. simpl. done.
Qed.

(** The script on its own list, the service refusing the second request. *)
Lemma one_request_per_item_witness :
  ∃ w' cs, main (flaky 1) nothing = Ok () w' ∧ calls w' = calls nothing ++ cs
           ∧ service_requests cs = request_of <$> images.
Proof.
  apply (one_request_per_item (flaky 1) images nothing).
  - apply flaky_console.
  - apply flaky_timer.
  - apply flaky_errors.
  - vm_compute. reflexivity.
Defined.

(** C2. In such a run over [n] items the 65-second delay is slept
    [n - 1] times, none when [n ≤ 1]: requests and delays alternate, a
    delay after every request but the last, whether the request's item
    succeeded or failed. *)
Theorem pacing_delays E its w :
  console_ok E → timer_ok E → errors_are_exceptions E →
  succeeds (os_makedirs E ASSETS true w) = true →
  ∃ w' cs, script E its w = Ok () w' ∧ calls w' = calls w ++ cs
           ∧ beats cs = rhythm its
           ∧ sleeps cs = replicate (length its - 1) 65%Z
           ∧ (∀ secs, last (beats cs) ≠ Some (Delay secs))
           ∧ (length its ≤ 1 → sleeps cs = []).
Proof.
  intros Hc Ht He Hprep.
  destruct (script_calls E its w Hc Ht He Hprep) as (w' & cs & Hrun & Hcs & _ & Hb).
  exists w', cs. split; [done|]. split; [done|]. split; [done|].
  assert (Hs : sleeps cs = replicate (length its - 1) 65%Z).
  { by rewrite sleeps_beats, Hb, rhythm_delays. }
  split; [done|]. split.
  - intros secs. rewrite Hb. apply rhythm_last.
  - intros Hn. rewrite Hs. by replace (length its - 1) with 0 by lia.
Qed.

Lemma pacing_delays_witness :
  ∃ w' cs, main (flaky 1) nothing = Ok () w' ∧ calls w' = calls nothing ++ cs
           ∧ beats cs = rhythm images
           ∧ sleeps cs = replicate (length images - 1) 65%Z
           ∧ (∀ secs, last (beats cs) ≠ Some (Delay secs))
           ∧ (length images ≤ 1 → sleeps cs = []).
Proof.
  apply (pacing_delays (flaky 1) images nothing).
  - apply flaky_console.
  - apply flaky_timer.
  - apply flaky_errors.
  - vm_compute. reflexivity.
Defined.

(** ** Failures inside and outside the handler *)



(** Reading a size raises nothing but an [OSError], and changes nothing. *)
Lemma getsize_raises fp w e w1 :
  os_path_getsize fp w = Raise e w1 → isinstance e Exception = true ∧ w1 = w.
Proof.
  unfold os_path_getsize. destruct (fs w !! resolve fp) as [[sz|c]|]; try done.
  by intros [= <- <-].
Qed.




Lemma for_enumerate_app {A} (pre post : list A) body i w wm :
  for_enumerate i pre body w = Ok () wm →
  for_enumerate i (pre ++ post) body w = for_enumerate (i + len pre) post body wm.
Proof.
  revert i w. induction pre as [|x pre IH]; intros i w Hpre.
  - injection Hpre as <-. simpl. by rewrite Z.add_0_r.
  - cbn [for_enumerate app] in *.
    apply bind_inv_Ok in Hpre as ([] & w1 & Hx & Hrest).
    erewrite bind_Ok by exact Hx. rewrite (IH _ _ Hrest).
    by replace (i + 1 + len pre)%Z with (i + len (x :: pre))%Z by (rewrite len_cons; lia).
Qed.

(** From the world the run has reached before an item, the run is what
    the item's iteration and the rest of the script make of it. *)
Lemma script_from E pre it rest w0 w :
  (os_makedirs E ASSETS true ;;
   for_enumerate 0 pre (loop_body E (pre ++ it :: rest))) w0 = Ok () w →
  script E (pre ++ it :: rest) w0
  = (loop_body E (pre ++ it :: rest) (len pre) it ;;
     for_enumerate (len pre + 1) rest (loop_body E (pre ++ it :: rest)) ;;
     summary E (pre ++ it :: rest)) w.
Proof.
  intros Hreach. apply bind_inv_Ok in Hreach as ([] & wp & Hprep & Hpre).
  unfold script. erewrite bind_Ok by exact Hprep.
  unfold generation_loop, mbind, M_bind.
  rewrite (for_enumerate_app _ _ _ _ _ _ Hpre). simpl.
  unfold mbind, M_bind. by destruct (loop_body E _ _ it w).
Qed.

Lemma final_Ok {A} (r : outcome A) : succeeds r = true → ∃ a, r = Ok a (final r).
Proof. destruct r as [a w|e w]; [eauto|done]. Qed.

(** C10. The handler stands around the request, the download, the size
    read-back and the success notice only.  An exception raised by the
    progress notice, or by the sleep of the pacing step, is outside it:
    whatever its class, it ends the whole run, the items after it and the
    summary included.  An [Exception] raised by the success notice is
    inside: it is answered by the failure notice and the run goes on. *)
Theorem recovery_boundary E pre f a p rest w0 e :
  let its := pre ++ (f, a, p) :: rest in
  let reached :=
    (os_makedirs E ASSETS true ;; for_enumerate 0 pre (loop_body E its)) w0 in
  let w := final reached in
  let notice := progress_notice (len pre) (len its) f a in
  let fp := os_path_join ASSETS f in
  succeeds reached = true →
  (console E w notice = Some e → script E its w0 = Raise e w)
  ∧ (∀ w1,
       console E w notice = None →
       try_except (try_body E f a p) Exception (handler E f) (emit notice w)
         = Ok () w1 →
       rest ≠ [] →
       console E w1 waiting_notice = None →
       timer E (emit waiting_notice w1) 65 = Some e →
       script E its w0
         = Raise e (log (Sleep 65 (Some e)) (emit waiting_notice w1)))
  ∧ (∀ o body e',
       let w1 := log (Run model_ref (request a p) (inr o)) (emit notice w) in
       let w2 := set_fs <[resolve fp := File body]>
                   (log (Urlretrieve (str o) fp (Fetched body)) w1) in
       service E (emit notice w) model_ref (request a p) = inr o →
       fetch E w1 (str o) fp = Fetched body →
       console E w2 (saved_notice f (len body)) = Some e' →
       isinstance e' Exception = true →
       console E w2 (fail_notice f e') = None →
       try_except (try_body E f a p) Exception (handler E f) (emit notice w)
         = Ok () (emit (fail_notice f e') w2)).
Proof.
  intros its reached w notice fp Hreach.
  destruct (final_Ok _ Hreach) as ([] & Hw). fold w in Hw.
  pose proof (script_from E pre (f, a, p) rest w0 w Hw) as Hscript.
  subst its. split; [|split].
  - intros Hprint. rewrite Hscript.
    apply bind_Raise. unfold loop_body.
    apply bind_Raise. by apply print_raises.
  - intros w1 Hprint Htry Hrest Hwait Hsleep. rewrite Hscript.
    apply bind_Raise. unfold loop_body.
    erewrite bind_Ok by (by apply print_ok).
    erewrite bind_Ok by exact Htry.
    unfold pace. rewrite bool_decide_eq_true_2.
    + erewrite bind_Ok by (by apply print_ok). by apply time_sleep_raises.
    + rewrite len_app, len_cons.
      destruct rest; [done|]. rewrite len_cons. unfold len. lia.
  - intros o body e' w1 w2 Hs Hf Hsaved Hexc Hfail.
    erewrite try_except_caught; [| |exact Hexc].
    + unfold handler. by apply print_ok.
    + unfold try_body.
      erewrite bind_Ok by (by apply replicate_run_ok). cbv zeta.
      erewrite bind_Ok by (by apply urlretrieve_ok).
      erewrite bind_Ok by (by apply getsize_written).
      by apply print_raises.
Qed.

(** The example list: the console breaks on the second progress notice,
    and the sleep after the first item is interrupted. *)
Lemma recovery_boundary_witness :
  (∃ w, script (deaf (progress_notice 1 2 "b.png" "16:9")) two_items nothing
        = Raise broken_pipe w)
  ∧ (∃ w, script impatient two_items nothing = Raise keyboard_interrupt w).
Proof.
  split.
  - pose proof (recovery_boundary (deaf (progress_notice 1 2 "b.png" "16:9"))
                  [("a.png", "1:1", "x")] "b.png" "16:9" "y" [] nothing broken_pipe)
      as H.
    cbv zeta in H. destruct H as (H & _); [vm_compute; reflexivity|].
    eexists. apply H. vm_compute. reflexivity.
  - pose proof (recovery_boundary impatient [] "a.png" "1:1" "x"
                  [("b.png", "16:9", "y")] nothing keyboard_interrupt) as H.
    cbv zeta in H. destruct H as (_ & H & _); [vm_compute; reflexivity|].
    eexists. eapply H.
    + reflexivity.
    + apply try_except_Ok. unfold try_body.
      erewrite bind_Ok by (by apply replicate_run_ok). cbv zeta.
      erewrite bind_Ok by (by apply urlretrieve_ok).
      erewrite bind_Ok by (by apply getsize_written).
      by apply print_ok.
    + done.
    + reflexivity.
    + reflexivity.
Defined.

(** ** The summary *)

(** C6. Once the generation loop is through, whatever became of the
    items, the summary pass goes over the same list in the same order and
    prints, between the header and the final [DONE], one line per entry:
    the name with the size of its file in KiB, rounded down, when the
    entry exists, the name flagged [MISSING] otherwise.  The pass leaves
    the file system as it is and calls neither the service, nor the
    network, nor the timer. *)
Theorem summary_pass E its w :
  console_ok E → timer_ok E → errors_are_exceptions E →
  (∃ w', summary E its w = Ok () w'
         ∧ stdout w' = stdout w ++ [newline +:+ rule; "SUMMARY"; rule]
                         ++ (summary_line (fs w) <$> its) ++ ["DONE"]
         ∧ fs w' = fs w
         ∧ calls w' = calls w)
  ∧ (∃ w1, generation_loop E its w = Ok () w1
           ∧ (generation_loop E its ;; summary E its) w
             = Ok () (emits (summary_report (fs w1) its) w1))
  ∧ (∀ m it,
       (∀ c, m !! target_of it = Some (File c) →
             summary_line m it
             = "  OK " +:+ filename_of it +:+ ": "
               +:+ pretty (Z.of_nat (length c) / 1024)%Z +:+ " KB")
       ∧ (m !! target_of it = None →
          summary_line m it = "  MISSING " +:+ filename_of it)).
Proof.
  intros Hc Ht He. split; [|split].
  - exists (emits (summary_report (fs w) its) w).
    split; [by apply summary_emits|done].
  - destruct (generation_loop_looped E its w Hc Ht He) as (w1 & Hloop & _).
    exists w1. split; [done|].
    erewrite bind_Ok by exact Hloop. by apply summary_emits.
  - intros m it. unfold summary_line. split.
    + by intros c ->.
    + by intros ->.
Qed.

(** The example list on an empty disk, the service refusing the first
    request: one file is missing, the other is there. *)
Lemma summary_pass_witness :
  ∃ w1, generation_loop (flaky 0) two_items nothing = Ok () w1
        ∧ (generation_loop (flaky 0) two_items ;; summary (flaky 0) two_items) nothing
          = Ok () (emits (summary_report (fs w1) two_items) w1).
Proof.
  destruct (summary_pass (flaky 0) two_items nothing) as (_ & H & _).
  - apply flaky_console.
  - apply flaky_timer.
  - apply flaky_errors.
  - exact H.
Defined.

(** ** The files of a run *)

Lemma succeeding_errors E :
  service_succeeds E → download_succeeds E → errors_are_exceptions E.
Proof.
  intros Hs Hd. split.
  - intros w ref input e He. destruct (Hs w ref input) as (o & Ho). congruence.
  - intros w url fp e part He. destruct (Hd w url fp) as (b & Hb). congruence.
Qed.

(** A file the loop has written is still a file when the loop ends. *)
Lemma looped_keeps_file E n i its w w' p b :
  looped E n i its w w' → fs w !! p = Some (File b) →
  ∃ b', fs w' !! p = Some (File b').
Proof.
  intros Hloop Hp. destruct (looped_fs E _ _ _ _ _ p Hloop) as [Heq|(_ & b' & Hb')].
  - exists b. congruence.
  - by exists b'.
Qed.

(** When service and download work, every item's file is there after the
    loop. *)
Lemma looped_all_saved E n i its w w' :
  service_succeeds E → download_succeeds E →
  looped E n i its w w' →
  ∀ it, it ∈ its → ∃ b, fs w' !! target_of it = Some (File b).
Proof.
  intros Hs Hd Hloop it Hin.
  apply list_elem_of_split in Hin as (pre & post & ->).
  apply looped_split in Hloop as (wm & w1 & _ & Htried & Hpost).
  destruct (tried_saved_inv E _ _ _ Htried) as (o & b & ->); [apply Hs|done|].
  eapply (looped_keeps_file _ _ _ _ _ _ _ b); [exact Hpost|].
  rewrite paced_fs. simpl. apply lookup_insert_eq.
Qed.

(** C4. When the service answers every request and every download goes
    through, the run completes, every item of the list has a file at
    [<output_dir>/<filename>], and the summary lists every item as
    present: it prints, for each item, the line [  OK <filename>: <n> KB]
    where [n] is the size of that file in KiB, rounded down. *)
Theorem all_generated E its w :
  console_ok E → timer_ok E → service_succeeds E → download_succeeds E →
  succeeds (os_makedirs E ASSETS true w) = true →
  ∃ w1 w', script E its w = Ok () w'
    ∧ w' = emits (summary_report (fs w') its) w1
    ∧ stdout w' = stdout w1 ++ [newline +:+ rule; "SUMMARY"; rule]
                    ++ (summary_line (fs w') <$> its) ++ ["DONE"]
    ∧ ∀ it, it ∈ its →
        (∃ body, fs w' !! resolve (os_path_join ASSETS (filename_of it))
                 = Some (File body)
                 ∧ summary_line (fs w') it
                   = "  OK " +:+ filename_of it +:+ ": "
                     +:+ pretty (Z.of_nat (length body) / 1024)%Z +:+ " KB"
                 ∧ "  OK " +:+ filename_of it +:+ ": "
                   +:+ pretty (Z.of_nat (length body) / 1024)%Z +:+ " KB"
                   ∈ stdout w')
        ∧ (plain_name (filename_of it) = true →
           target_of it = resolve ASSETS ++ [filename_of it]).
Proof.
  intros Hc Ht Hs Hd (w0 & Hprep)%succeeds_Ok.
  destruct (script_looped E its w w0 Hc Ht (succeeding_errors E Hs Hd) Hprep)
    as (w1 & Hloop & Hrun).
  exists w1, (emits (summary_report (fs w1) its) w1).
  split; [done|]. split; [done|]. split; [done|]. intros it Hin. split.
  - destruct (looped_all_saved E _ _ _ _ _ Hs Hd Hloop it Hin) as (b & Hb).
    exists b. simpl.
    assert (Hline : summary_line (fs w1) it
                    = "  OK " +:+ filename_of it +:+ ": "
                      +:+ pretty (Z.of_nat (length b) / 1024)%Z +:+ " KB").
    { unfold summary_line. by rewrite Hb. }
    split; [exact Hb|]. split; [exact Hline|].
    rewrite <- Hline. unfold summary_report.
    rewrite !elem_of_app. right. right. left. by apply list_elem_of_fmap_2.
  - apply target_plain.
Qed.

Lemma quiet_console : console_ok quiet.
Proof. intros w line. reflexivity. Qed.

Lemma quiet_timer : timer_ok quiet.
Proof. intros w secs. reflexivity. Qed.

Lemma quiet_service : service_succeeds quiet.
Proof. intros w ref input. by eexists. Qed.

Lemma quiet_download : download_succeeds quiet.
Proof. intros w url fp. by eexists. Qed.

(** The script on its own list, everything working, from an empty disk. *)
Lemma all_generated_witness :
  ∃ w1 w', main quiet nothing = Ok () w'
    ∧ w' = emits (summary_report (fs w') images) w1
    ∧ stdout w' = stdout w1 ++ [newline +:+ rule; "SUMMARY"; rule]
                    ++ (summary_line (fs w') <$> images) ++ ["DONE"]
    ∧ ∀ it, it ∈ images →
        (∃ body, fs w' !! resolve (os_path_join ASSETS (filename_of it))
                 = Some (File body)
                 ∧ summary_line (fs w') it
                   = "  OK " +:+ filename_of it +:+ ": "
                     +:+ pretty (Z.of_nat (length body) / 1024)%Z +:+ " KB"
                 ∧ "  OK " +:+ filename_of it +:+ ": "
                   +:+ pretty (Z.of_nat (length body) / 1024)%Z +:+ " KB"
                   ∈ stdout w')
        ∧ (plain_name (filename_of it) = true →
           target_of it = resolve ASSETS ++ [filename_of it]).
Proof.
  refine (all_generated quiet images nothing quiet_console quiet_timer
            quiet_service quiet_download _).
  vm_compute. reflexivity.
Defined.

(** ** One refused request *)

Lemma served_prepared name w w' : prepared name w w' → served w' = served w.
Proof.
  intros Hp. destruct (prepared_calls _ _ _ Hp) as (cs & Hcs & Hmk).
  destruct (mkdirs_silent _ Hmk) as (Hreq & _).
  unfold served. by rewrite Hcs, service_requests_app, Hreq, (right_id_L [] (++)).
Qed.

Lemma prepared_target name w w' it :
  prepared name w w' → ¬ target_of it `prefix_of` name →
  fs w' !! target_of it = fs w !! target_of it.
Proof.
  intros Hp Hpre. by destruct (prepared_fs _ _ _ Hp (target_of it)) as [?|(_ & _ & ? & _)].
Qed.

(** The loop leaves alone what is not the file of one of its items. *)
Lemma looped_frame E n i its w w' p :
  looped E n i its w w' → p ∉ target_of <$> its → fs w' !! p = fs w !! p.
Proof.
  intros Hloop Hp. by destruct (looped_fs E _ _ _ _ _ p Hloop) as [?|(? & _)].
Qed.

(** C5. When the service refuses the request of item [k] alone, the run
    still completes and sends the request of every item; the failure
    notice of item [k], [  FAIL: <filename> - <error>], is printed; the
    file of item [k] is what it was before the run, absent or left over;
    when it was absent the summary prints [  MISSING <filename>] for the
    item; and every other item has its file, which is the entry
    [<filename>] of the output directory. *)
Theorem one_item_fails E its k itk e w :
  console_ok E → timer_ok E → download_succeeds E →
  (∀ w' ref input, served w' = served w + k → service E w' ref input = inl e) →
  (∀ w' ref input, served w' ≠ served w + k → ∃ o, service E w' ref input = inr o) →
  isinstance e Exception = true →
  its !! k = Some itk →
  Forall (λ it, plain_name (filename_of it) = true) its →
  NoDup (filename_of <$> its) →
  succeeds (os_makedirs E ASSETS true w) = true →
  ∃ w' cs ls, script E its w = Ok () w'
    ∧ calls w' = calls w ++ cs
    ∧ service_requests cs = request_of <$> its
    ∧ stdout w' = stdout w ++ ls
    ∧ "  FAIL: " +:+ filename_of itk +:+ " - " +:+ exn_str e ∈ ls
    ∧ fs w' !! target_of itk = fs w !! target_of itk
    ∧ (fs w !! target_of itk = None → "  MISSING " +:+ filename_of itk ∈ ls)
    ∧ (∀ it, it ∈ its → target_of it = resolve ASSETS ++ [filename_of it])
    ∧ ∀ j it, its !! j = Some it → j ≠ k →
        ∃ body, fs w' !! target_of it = Some (File body).
Proof.
  intros Hc Ht Hd Hfail Hok Hexc Hk Hplain Hnd Hprep.
  change ("  FAIL: " +:+ filename_of itk +:+ " - " +:+ exn_str e)
    with (fail_notice (filename_of itk) e).
  change ("  MISSING " +:+ filename_of itk) with (missing_line (filename_of itk)).
  assert (He : errors_are_exceptions E).
  { split.
    - intros w' ref input e' He'.
      destruct (decide (served w' = served w + k)) as [Heq|Hne].
      + rewrite (Hfail _ _ _ Heq) in He'. by injection He' as <-.
      + destruct (Hok w' ref input Hne) as (o & Ho). congruence.
    - intros w' url fp e' part He'. destruct (Hd w' url fp) as (b & Hb). congruence. }
  destruct (script_calls E its w Hc Ht He Hprep) as (w' & cs & Hrun & Hcs & Hreq & _).
  apply succeeds_Ok in Hprep as (w0 & Hprep).
  destruct (script_looped E its w w0 Hc Ht He Hprep) as (w1 & Hloop & Hrun').
  rewrite Hrun in Hrun'. injection Hrun' as ->.
  pose proof (os_makedirs_prepared E w) as Hp. rewrite Hprep in Hp. simpl in Hp.
  pose proof (targets_NoDup its Hplain Hnd) as Htargets.
  (* the loop, cut at item [k] *)
  pose proof (take_drop_middle its k itk Hk) as Hcut.
  pose proof Hloop as Hloop'. rewrite <- Hcut in Hloop'.
  apply looped_split in Hloop' as (wm & w2 & Hpre & Htried & Hpost).
  assert (Hservedm : served wm = served w + k).
  { rewrite (looped_served E _ _ _ _ _ Hpre), (served_prepared _ _ _ Hp).
    rewrite length_take. apply lookup_lt_Some in Hk. lia. }
  pose proof (tried_failed_inv E _ _ _ e Htried (Hfail (emit _ wm) _ _ Hservedm)) as Hw2.
  rewrite <- Hcut in Htargets. rewrite fmap_app, fmap_cons in Htargets.
  apply NoDup_app in Htargets as (_ & Hpre_post & Hnd_post).
  apply NoDup_cons in Hnd_post as (Hnotin_post & _).
  assert (Hnotin_pre : target_of itk ∉ target_of <$> take k its).
  { intros Hin. apply (Hpre_post _ Hin). left. }
  assert (Hfsk : fs w1 !! target_of itk = fs w !! target_of itk).
  { rewrite (looped_frame E _ _ _ _ _ _ Hpost Hnotin_post), paced_fs, Hw2. simpl.
    rewrite (looped_frame E _ _ _ _ _ _ Hpre Hnotin_pre).
    apply (prepared_target _ _ _ _ Hp), target_not_prefix.
    by eapply Forall_lookup_1 in Hplain. }
  (* what the loop printed *)
  destruct (looped_stdout E _ _ _ _ _ Hpre) as (ls1 & Hls1).
  destruct (looped_stdout E _ _ _ _ _ Hpost) as (ls2 & Hls2).
  rewrite paced_stdout, Hw2 in Hls2. simpl in Hls2. rewrite Hls1 in Hls2.
  rewrite (prepared_stdout _ _ _ Hp) in Hls2.
  eexists _, cs, _. split; [done|]. split; [done|]. split; [done|].
  split; [|split; [|split; [|split; [|split]]]].
  - simpl. rewrite Hls2. rewrite <- !(assoc_L (++)). reflexivity.
  - rewrite !elem_of_app. right. right. left. by apply list_elem_of_singleton.
  - done.
  - intros Hnone. rewrite <- Hfsk in Hnone.
    assert (Hline : summary_line (fs w1) itk = missing_line (filename_of itk)).
    { unfold summary_line. by rewrite Hnone. }
    assert (Hin : itk ∈ its) by (by eapply list_elem_of_lookup_2).
    rewrite !elem_of_app. do 5 right. unfold summary_report. rewrite <- Hline.
    rewrite !elem_of_app. right. left. by apply list_elem_of_fmap_2.
  - intros it Hit. apply target_plain. by eapply Forall_forall in Hplain.
  - intros j it Hj Hjk. simpl.
    pose proof (take_drop_middle its j it Hj) as Hcutj.
    pose proof Hloop as Hloopj. rewrite <- Hcutj in Hloopj.
    apply looped_split in Hloopj as (wmj & w2j & Hprej & Htriedj & Hpostj).
    assert (Hservedj : served wmj ≠ served w + k).
    { rewrite (looped_served E _ _ _ _ _ Hprej), (served_prepared _ _ _ Hp).
      rewrite length_take. apply lookup_lt_Some in Hj. lia. }
    destruct (tried_saved_inv E _ _ _ Htriedj) as (o & b & ->);
      [apply Hok; exact Hservedj|done|].
    eapply (looped_keeps_file _ _ _ _ _ _ _ b); [exact Hpostj|].
    rewrite paced_fs. simpl. apply lookup_insert_eq.
Qed.

(** ** The list of the script *)

Lemma images_plain : Forall (λ it, plain_name (filename_of it) = true) images.
Proof. unfold images. repeat (constructor; [by vm_compute|]). constructor. Qed.

Lemma images_distinct : NoDup (filename_of <$> images).
Proof.
  apply (bool_decide_unpack (NoDup (filename_of <$> images))).
  vm_compute. exact I.
Qed.

Lemma flaky_refuses k w ref input :
  served w = served nothing + k → service (flaky k) w ref input = inl service_down.
Proof. intros Hk. simpl in *. by rewrite decide_True. Qed.

Lemma flaky_answers k w ref input :
  served w ≠ served nothing + k → ∃ o, service (flaky k) w ref input = inr o.
Proof. intros Hk. simpl in *. rewrite decide_False by done. by eexists. Qed.

Lemma flaky_download k : download_succeeds (flaky k).
Proof. intros w url fp. by eexists. Qed.

(** The script on its own list, from an empty disk, the service refusing
    the second request. *)
Lemma one_item_fails_witness :
  ∃ w' cs ls, script (flaky 1) images nothing = Ok () w'
    ∧ calls w' = calls nothing ++ cs
    ∧ service_requests cs = request_of <$> images
    ∧ stdout w' = stdout nothing ++ ls
    ∧ "  FAIL: " +:+ filename_of (images !!! 1) +:+ " - "
      +:+ exn_str service_down ∈ ls
    ∧ fs w' !! target_of (images !!! 1) = fs nothing !! target_of (images !!! 1)
    ∧ (fs nothing !! target_of (images !!! 1) = None →
       "  MISSING " +:+ filename_of (images !!! 1) ∈ ls)
    ∧ (∀ it, it ∈ images → target_of it = resolve ASSETS ++ [filename_of it])
    ∧ ∀ j it, images !! j = Some it → j ≠ 1 →
        ∃ body, fs w' !! target_of it = Some (File body).
Proof.
  refine (one_item_fails (flaky 1) images 1 (images !!! 1) service_down nothing
            (flaky_console 1) (flaky_timer 1) (flaky_download 1)
            (flaky_refuses 1) (flaky_answers 1) eq_refl eq_refl
            images_plain images_distinct _).
  vm_compute. reflexivity.
Defined.

(** ** Preparing the output directory *)

Lemma resolve_ASSETS :
  resolve ASSETS = ["C:"; "Users"; "useva"; ".openclaw"; "workspace"; "projects";
                    "card-ledger"; "public"; "assets"].
Proof. by vm_compute. Qed.

Lemma reverse_resolve_ASSETS :
  reverse (resolve ASSETS)
  = ["assets"; "public"; "card-ledger"; "projects"; "workspace"; ".openclaw";
     "useva"; "Users"; "C:"].
Proof. by rewrite resolve_ASSETS. Qed.

Section Prepare.
Context (E : env).

(** The directory is there after a preparation that returns. *)
Lemma os_makedirs_post w w' :
  os_makedirs E ASSETS true w = Ok () w' →
  path_isdir (fs w') (resolve ASSETS) = true.
Proof.
  unfold os_makedirs. rewrite <- (reverse_involutive (resolve ASSETS)) at 2.
  rewrite reverse_resolve_ASSETS. by apply makedirs_rev_post.
Qed.

(** On a directory that is there, with its parent, the preparation
    returns and only logs the [mkdir] it tried. *)
Lemma os_makedirs_there w :
  path_isdir (fs w) (resolve ASSETS) = true →
  path_exists (fs w) (parent (resolve ASSETS)) = true →
  ∃ e, os_makedirs E ASSETS true w
       = Ok () (log (Mkdir (resolve ASSETS) (Some e)) w).
Proof.
  intros Hdir Hpar. unfold os_makedirs.
  destruct (makedirs_rev_there E (reverse (resolve ASSETS)) w) as (e & He).
  - rewrite reverse_resolve_ASSETS. discriminate.
  - rewrite reverse_involutive. exact Hdir.
  - right. rewrite reverse_involutive. exact Hpar.
  - exists e. by rewrite reverse_involutive in He.
Qed.

Lemma os_makedirs_creates w :
  mkdir_allowed E → tree_shaped (fs w) → unobstructed (fs w) (resolve ASSETS) →
  ∃ w', os_makedirs E ASSETS true w = Ok () w'.
Proof.
  intros Hall Htree Hfree. unfold os_makedirs.
  destruct (makedirs_rev_creates E (reverse (resolve ASSETS)) true w) as (w' & Hw' & _);
    try done.
  - rewrite reverse_resolve_ASSETS. intros Hin.
    apply (bool_decide_pack _) in Hin. by vm_compute in Hin.
  - by exists w'.
Qed.

End Prepare.

(** C8. [os.makedirs(ASSETS, exist_ok=True)]: on a directory that is
    already there it raises nothing and changes nothing on disk, whatever
    [mkdir] answers; when nothing refuses and no file is in the way it
    returns with the directory and all directories above it in place, and
    with every entry that was there untouched; run a second time it
    changes nothing more.  When it raises, the whole run raises with it:
    no request is sent and nothing is printed. *)
Theorem directory_preparation E w :
  (tree_shaped (fs w) → path_isdir (fs w) (resolve ASSETS) = true →
   ∃ w', os_makedirs E ASSETS true w = Ok () w'
         ∧ fs w' = fs w ∧ stdout w' = stdout w)
  ∧ (mkdir_allowed E → tree_shaped (fs w) → unobstructed (fs w) (resolve ASSETS) →
     ∃ w', os_makedirs E ASSETS true w = Ok () w'
           ∧ (∀ p, p `prefix_of` resolve ASSETS → p ≠ [] →
                   path_isdir (fs w') p = true)
           ∧ (∀ p n, fs w !! p = Some n → fs w' !! p = Some n)
           ∧ (∀ p, ¬ p `prefix_of` resolve ASSETS → fs w' !! p = fs w !! p))
  ∧ (∀ w1, tree_shaped (fs w) → os_makedirs E ASSETS true w = Ok () w1 →
     ∃ w2, os_makedirs E ASSETS true w1 = Ok () w2 ∧ fs w2 = fs w1)
  ∧ (∀ its e w', os_makedirs E ASSETS true w = Raise e w' →
     script E its w = Raise e w'
     ∧ service_requests (calls w') = service_requests (calls w)
     ∧ stdout w' = stdout w).
Proof.
  pose proof (os_makedirs_prepared E w) as Hp.
  split; [|split; [|split]].
  - intros Htree Hdir.
    destruct (os_makedirs_there E w Hdir) as (e & He).
    + rewrite <- (reverse_involutive (resolve ASSETS)).
      destruct (tree_shaped_parent (fs w) (reverse (reverse (resolve ASSETS))) Htree)
        as [Hnil|Hex]; [rewrite reverse_involutive; by apply path_isdir_Some| |done].
      rewrite reverse_involutive, resolve_ASSETS in Hnil. done.
    + eexists. split; [exact He|done].
  - intros Hall Htree Hfree.
    destruct (os_makedirs_creates E w Hall Htree Hfree) as (w' & Hw').
    rewrite Hw' in Hp. simpl in Hp. exists w'. split; [done|].
    pose proof (os_makedirs_post E w w' Hw') as Hdir.
    split; [|split].
    + intros p Hpre Hne. destruct (decide (p = resolve ASSETS)) as [->|Hp'].
      * done.
      * eapply tree_shaped_ancestors; [exact (prepared_tree _ _ _ Hp Htree)| | | |]; try done.
        by apply path_isdir_Some.
    + intros p n Hn. destruct (prepared_fs _ _ _ Hp p) as [->|(Hnone & _)]; congruence.
    + intros p Hpre. by destruct (prepared_fs _ _ _ Hp p) as [?|(_ & _ & ? & _)].
  - intros w1 Htree Hw1. rewrite Hw1 in Hp. simpl in Hp.
    pose proof (os_makedirs_post E w w1 Hw1) as Hdir.
    destruct (os_makedirs_there E w1 Hdir) as (e & He).
    + destruct (tree_shaped_parent (fs w1) (resolve ASSETS)
                  (prepared_tree _ _ _ Hp Htree)) as [Hnil|Hex];
        [by apply path_isdir_Some| |done].
      by rewrite resolve_ASSETS in Hnil.
    + eexists. split; [exact He|done].
  - intros its e w' Hraise. rewrite Hraise in Hp. simpl in Hp.
    split; [|split].
    + unfold script. by apply bind_Raise.
    + pose proof (served_prepared _ _ _ Hp) as Hserved.
      destruct (prepared_calls _ _ _ Hp) as (cs & Hcs & Hmk).
      destruct (mkdirs_silent _ Hmk) as (Hreq & _).
      by rewrite Hcs, service_requests_app, Hreq, (right_id_L [] (++)).
    + apply (prepared_stdout _ _ _ Hp).
Qed.

Lemma tree_shaped_empty : tree_shaped ∅.
Proof. intros p n Hp. by rewrite lookup_empty in Hp. Qed.

Lemma unobstructed_empty name : unobstructed ∅ name.
Proof. intros p c _. by rewrite lookup_empty. Qed.

(** From an empty disk: the directories are made when nothing refuses;
    the run dies at once when [mkdir] is refused. *)
Lemma directory_preparation_witness :
  (∃ w', os_makedirs quiet ASSETS true nothing = Ok () w'
         ∧ (∀ p, p `prefix_of` resolve ASSETS → p ≠ [] →
                 path_isdir (fs w') p = true)
         ∧ (∀ p n, fs nothing !! p = Some n → fs w' !! p = Some n)
         ∧ (∀ p, ¬ p `prefix_of` resolve ASSETS → fs w' !! p = fs nothing !! p))
  ∧ (script read_only images nothing
     = Raise (Exn OSError "[Errno 13] Permission denied")
         (final (os_makedirs read_only ASSETS true nothing))).
Proof.
  split.
  - destruct (directory_preparation quiet nothing) as (_ & H & _).
    apply H.
    + intros w p. reflexivity.
    + apply tree_shaped_empty.
    + apply unobstructed_empty.
  - destruct (directory_preparation read_only nothing) as (_ & _ & _ & H).
    apply H. vm_compute. reflexivity.
Defined.

(** C9. The list of the script: its file names are pairwise distinct and
    its aspect ratios are among ["16:9"], ["1:1"] and ["9:16"].  The list
    is a constant of the script and no part of the world a run changes:
    the generation loop sends the requests of its fifteen entries, and the
    summary that follows reports on the same fifteen entries, in the same
    order. *)
Theorem images_invariants :
  NoDup (filename_of <$> images)
  ∧ Forall (λ it, aspect_of it ∈ ["16:9"; "1:1"; "9:16"]) images
  ∧ length images = 15
  ∧ (∀ E w,
       console_ok E → timer_ok E → errors_are_exceptions E →
       succeeds (os_makedirs E ASSETS true w) = true →
       ∃ w1 cs, main E w = Ok () (emits (summary_report (fs w1) images) w1)
                ∧ calls w1 = calls w ++ cs
                ∧ service_requests cs = request_of <$> images).
Proof.
  split; [exact images_distinct|]. split; [|split; [done|]].
  - apply (bool_decide_unpack
             (Forall (λ it, aspect_of it ∈ ["16:9"; "1:1"; "9:16"]) images)).
    vm_compute. exact I.
  - intros E w Hc Ht He Hprep.
    destruct (script_calls E images w Hc Ht He Hprep) as (w' & cs & Hrun & Hcs & Hreq & _).
    apply succeeds_Ok in Hprep as (w0 & Hprep).
    destruct (script_looped E images w w0 Hc Ht He Hprep) as (w1 & _ & Hrun').
    unfold main. rewrite Hrun in Hrun'. injection Hrun' as ->.
    by exists w1, cs.
Qed.

(** A run of the script from an empty disk, the service refusing the
    second request. *)
Lemma images_invariants_witness :
  ∃ w1 cs, main (flaky 1) nothing
           = Ok () (emits (summary_report (fs w1) images) w1)
           ∧ calls w1 = calls nothing ++ cs
           ∧ service_requests cs = request_of <$> images.
Proof.
  destruct images_invariants as (_ & _ & _ & H).
  apply (H (flaky 1) nothing).
  - apply flaky_console.
  - apply flaky_timer.
  - apply flaky_errors.
  - vm_compute. reflexivity.
Defined.

(** ** Running twice *)

Lemma looped_extends E n i its w w' :
  looped E n i its w w' → ∃ cs, calls w' = calls w ++ cs.
Proof.
  induction 1 as [i w|i it its w w1 w' Htried Hloop (cs2 & IH)].
  - exists []. by rewrite (right_id_L [] (++)).
  - destruct (tried_calls E _ _ _ Htried) as (cs1 & Hcs1 & _).
    rewrite paced_calls, Hcs1 in IH. simpl in IH.
    eexists. rewrite IH. by rewrite <- !(assoc_L (++)).
Qed.

(** With distinct destinations, the file of every item holds, after the
    loop, the body its own download of this loop fetched. *)
Lemma looped_content E n i its w w' cs :
  service_succeeds E → download_succeeds E →
  NoDup (target_of <$> its) →
  looped E n i its w w' → calls w' = calls w ++ cs →
  ∀ it, it ∈ its →
    ∃ o body, Urlretrieve (str o) (filepath_of it) (Fetched body) ∈ cs
              ∧ fs w' !! target_of it = Some (File body).
Proof.
  intros Hs Hd Hnd Hloop Hcs it Hin.
  apply list_elem_of_split in Hin as (pre & post & ->).
  rewrite fmap_app, fmap_cons in Hnd.
  apply NoDup_app in Hnd as (_ & _ & Hnd).
  apply NoDup_cons in Hnd as (Hnotin & _).
  apply looped_split in Hloop as (wm & w1 & Hpre & Htried & Hpost).
  destruct (tried_saved_inv E _ _ _ Htried) as (o & b & ->); [apply Hs|done|].
  exists o, b. split.
  - destruct (looped_extends E _ _ _ _ _ Hpre) as (cs1 & Hcs1).
    destruct (looped_extends E _ _ _ _ _ Hpost) as (cs2 & Hcs2).
    rewrite paced_calls in Hcs2. simpl in Hcs2. rewrite Hcs1 in Hcs2.
    rewrite Hcs2, <- !(assoc_L (++)) in Hcs. apply app_inv_head in Hcs as <-.
    rewrite !elem_of_app. right. right. left. by apply list_elem_of_singleton.
  - rewrite (looped_frame E _ _ _ _ _ _ Hpost Hnotin), paced_fs. simpl.
    apply lookup_insert_eq.
Qed.

(** With plain names, the loop leaves the output directory and what is
    above it alone. *)
Lemma prefix_not_target its (p : path) :
  Forall (λ it, plain_name (filename_of it) = true) its →
  p `prefix_of` resolve ASSETS → p ∉ target_of <$> its.
Proof.
  intros Hplain Hpre Hin. apply list_elem_of_fmap in Hin as (it & -> & Hit).
  apply (target_not_prefix it); [|done].
  by eapply Forall_forall in Hplain.
Qed.

(** A download replaces what is at its destination and nothing else. *)
Lemma urlretrieve_overwrites E w url fp body :
  fetch E w url fp = Fetched body →
  ∃ w', urlretrieve E url fp w = Ok () w'
        ∧ fs w' !! resolve fp = Some (File body)
        ∧ ∀ p, p ≠ resolve fp → fs w' !! p = fs w !! p.
Proof.
  intros Hf. eexists. split; [by apply urlretrieve_ok|]. simpl. split.
  - apply lookup_insert_eq.
  - intros p Hp. by apply lookup_insert_ne.
Qed.

(** C7. With a service and downloads that always succeed, the script run
    twice in a row completes twice.  The file of an item is
    [<output_dir>/<filename>], the output directory joined with the file
    name, in both runs; every download writes it over what is there;
    after the second run the file of every item holds the body the second
    run fetched for it, the disk has the same entries as after the first
    run, and every entry that is not the file of an item is as the first
    run left it. *)
Theorem rerun_overwrites E its w :
  console_ok E → timer_ok E → service_succeeds E → download_succeeds E →
  Forall (λ it, plain_name (filename_of it) = true) its →
  NoDup (filename_of <$> its) →
  tree_shaped (fs w) →
  succeeds (os_makedirs E ASSETS true w) = true →
  ∃ w1 w2 cs2,
    script E its w = Ok () w1
    ∧ script E its w1 = Ok () w2
    ∧ calls w2 = calls w1 ++ cs2
    ∧ dom (fs w2) = dom (fs w1)
    ∧ (∀ it, it ∈ its →
         ∃ o body, Urlretrieve (str o) (filepath_of it) (Fetched body) ∈ cs2
                   ∧ fs w2 !! target_of it = Some (File body))
    ∧ (∀ p, p ∉ target_of <$> its → fs w2 !! p = fs w1 !! p)
    ∧ (∀ w0 url fp body, fetch E w0 url fp = Fetched body →
         ∃ w', urlretrieve E url fp w0 = Ok () w'
               ∧ fs w' !! resolve fp = Some (File body)
               ∧ ∀ p, p ≠ resolve fp → fs w' !! p = fs w0 !! p)
    ∧ (∀ it, it ∈ its →
         filepath_of it = ASSETS +:+ String backslash (filename_of it)
         ∧ target_of it = resolve ASSETS ++ [filename_of it]).
Proof.
  intros Hc Ht Hs Hd Hplain Hnd Htree (w0 & Hprep)%succeeds_Ok.
  pose proof (succeeding_errors E Hs Hd) as He.
  pose proof (targets_NoDup its Hplain Hnd) as Htargets.
  (* the first run *)
  destruct (script_looped E its w w0 Hc Ht He Hprep) as (wa & Hloop1 & Hrun1).
  pose proof (os_makedirs_prepared E w) as Hp. rewrite Hprep in Hp. simpl in Hp.
  pose proof (prepared_tree _ _ _ Hp Htree) as Htree0.
  pose proof (os_makedirs_post E w w0 Hprep) as Hdir0.
  assert (Hpar0 : path_exists (fs w0) (parent (resolve ASSETS)) = true).
  { destruct (tree_shaped_parent (fs w0) (resolve ASSETS) Htree0) as [Hnil|Hex];
      [by apply path_isdir_Some| |done].
    by rewrite resolve_ASSETS in Hnil. }
  assert (Hdira : path_isdir (fs wa) (resolve ASSETS) = true).
  { unfold path_isdir in *.
    rewrite (looped_frame E _ _ _ _ _ _ Hloop1); [done|].
    by apply prefix_not_target. }
  assert (Hpara : path_exists (fs wa) (parent (resolve ASSETS)) = true).
  { unfold path_exists in *.
    rewrite (looped_frame E _ _ _ _ _ _ Hloop1); [done|].
    apply prefix_not_target; [done|]. rewrite resolve_ASSETS. by eexists [_]. }
  set (w1 := emits (summary_report (fs wa) its) wa) in *.
  (* the second run *)
  destruct (os_makedirs_there E w1 Hdira Hpara) as (e & Hprep2).
  destruct (script_looped E its w1 _ Hc Ht He Hprep2) as (wb & Hloop2 & Hrun2).
  destruct (looped_extends E _ _ _ _ _ Hloop2) as (cs & Hcs).
  exists w1, (emits (summary_report (fs wb) its) wb),
    ([Mkdir (resolve ASSETS) (Some e)] ++ cs).
  split; [done|]. split; [done|]. split; [|split; [|split; [|split; [|split]]]].
  - simpl. rewrite Hcs. simpl. by rewrite <- (assoc_L (++)).
  - apply set_eq. intros p. rewrite !elem_of_dom. simpl.
    destruct (decide (p ∈ target_of <$> its)) as [Hin|Hout].
    + apply list_elem_of_fmap in Hin as (it & -> & Hit).
      destruct (looped_all_saved E _ _ _ _ _ Hs Hd Hloop1 it Hit) as (b1 & ->).
      destruct (looped_all_saved E _ _ _ _ _ Hs Hd Hloop2 it Hit) as (b2 & ->).
      split; eauto.
    + by rewrite (looped_frame E _ _ _ _ _ _ Hloop2 Hout).
  - intros it Hit.
    destruct (looped_content E _ _ _ _ _ cs Hs Hd Htargets Hloop2 Hcs it Hit)
      as (o & b & Hin & Hb).
    exists o, b. split; [|done]. rewrite elem_of_app. by right.
  - intros p Hout. simpl. by rewrite (looped_frame E _ _ _ _ _ _ Hloop2 Hout).
  - intros. by apply urlretrieve_overwrites.
  - intros it Hit. split; [apply join_ASSETS|].
    apply target_plain. by eapply Forall_forall in Hplain.
Qed.

(** The script on its own list, twice, from an empty disk. *)
Lemma rerun_overwrites_witness :
  ∃ w1 w2 cs2,
    script quiet images nothing = Ok () w1
    ∧ script quiet images w1 = Ok () w2
    ∧ calls w2 = calls w1 ++ cs2
    ∧ dom (fs w2) = dom (fs w1)
    ∧ (∀ it, it ∈ images →
         ∃ o body, Urlretrieve (str o) (filepath_of it) (Fetched body) ∈ cs2
                   ∧ fs w2 !! target_of it = Some (File body))
    ∧ (∀ p, p ∉ target_of <$> images → fs w2 !! p = fs w1 !! p)
    ∧ (∀ w0 url fp body, fetch quiet w0 url fp = Fetched body →
         ∃ w', urlretrieve quiet url fp w0 = Ok () w'
               ∧ fs w' !! resolve fp = Some (File body)
               ∧ ∀ p, p ≠ resolve fp → fs w' !! p = fs w0 !! p)
    ∧ (∀ it, it ∈ images →
         filepath_of it = ASSETS +:+ String backslash (filename_of it)
         ∧ target_of it = resolve ASSETS ++ [filename_of it]).
Proof.
  refine (rerun_overwrites quiet images nothing quiet_console quiet_timer
            quiet_service quiet_download images_plain images_distinct
            tree_shaped_empty _).
  vm_compute. reflexivity.
Defined.

(** * More on the script *)

(** ** Properties of every run *)

Section Keeps.
Context (R : world → world → Prop) `{!PreOrder R}.

Lemma keeps_ret {A} (a : A) : keeps R (mret a).
Proof. intros w. reflexivity. Qed.

Lemma keeps_bind {A B} (m : M A) (k : A → M B) :
  keeps R m → (∀ a, keeps R (k a)) → keeps R (m ≫= k).
Proof.
  intros Hm Hk w. specialize (Hm w). unfold mbind, M_bind.
  destruct (m w) as [a w1|e w1]; [|done].
  etrans; [exact Hm|apply Hk].
Qed.

Lemma keeps_try_except {A} (body : M A) c (h : exn → M A) :
  keeps R body → (∀ e, keeps R (h e)) → keeps R (try_except body c h).
Proof.
  intros Hb Hh w. specialize (Hb w). unfold try_except.
  destruct (body w) as [a w1|e w1]; [done|].
  destruct (isinstance e c); [|done].
  etrans; [exact Hb|apply Hh].
Qed.

Lemma keeps_for_enumerate {A} (l : list A) (body : Z → A → M unit) i :
  (∀ j x, x ∈ l → keeps R (body j x)) → keeps R (for_enumerate i l body).
Proof.
  revert i. induction l as [|x l IH]; intros i Hbody; [apply keeps_ret|].
  cbn [for_enumerate]. apply keeps_bind.
  - apply Hbody. by left.
  - intros _. apply IH. intros j y Hy. apply Hbody. by right.
Qed.

Lemma keeps_for_each {A} (l : list A) (body : A → M unit) :
  (∀ x, x ∈ l → keeps R (body x)) → keeps R (for_each l body).
Proof.
  induction l as [|x l IH]; intros Hbody; [apply keeps_ret|].
  cbn [for_each]. apply keeps_bind.
  - apply Hbody. by left.
  - intros _. apply IH. intros y Hy. apply Hbody. by right.
Qed.

End Keeps.

(** ** The disk in every run *)

Lemma disk_change_preorder its : PreOrder (disk_change its).
Proof.
  split.
  - intros w p. by left.
  - intros w1 w2 w3 H12 H23 p.
    destruct (H23 p) as [Heq|[(Hin & b & Hb)|(Hnone & Hdir & Hpre & Hne)]].
    + rewrite Heq. apply H12.
    + right. left. eauto.
    + destruct (H12 p) as [Heq|[(Hin & b & Hb)|(Hnone' & Hdir' & _)]].
      * right. right. by rewrite <- Heq.
      * congruence.
      * congruence.
Qed.

Global Existing Instance disk_change_preorder.

Lemma same_disk_change its w w' : fs w' = fs w → disk_change its w w'.
Proof. intros Heq p. left. by rewrite Heq. Qed.

Lemma prepared_disk_change its name w w' :
  name = resolve ASSETS → prepared name w w' → disk_change its w w'.
Proof.
  intros -> Hp p. destruct (prepared_fs _ _ _ Hp p) as [?|?]; [by left|by right; right].
Qed.

Section Disk.
Context (E : env) (its : list item).

Lemma print_disk line : keeps (disk_change its) (print E line).
Proof.
  intros w. apply same_disk_change. unfold print.
  by destruct (console E w line).
Qed.

Lemma time_sleep_disk secs : keeps (disk_change its) (time_sleep E secs).
Proof.
  intros w. apply same_disk_change. unfold time_sleep.
  by destruct (timer E w secs).
Qed.

Lemma replicate_run_disk ref input : keeps (disk_change its) (replicate_run E ref input).
Proof.
  intros w. apply same_disk_change. unfold replicate_run.
  by destruct (service E w ref input).
Qed.

Lemma getsize_disk fp : keeps (disk_change its) (os_path_getsize fp).
Proof.
  intros w. apply same_disk_change. unfold os_path_getsize.
  by destruct (fs w !! resolve fp) as [[]|].
Qed.

Lemma exists_disk fp : keeps (disk_change its) (os_path_exists fp).
Proof. intros w. by apply same_disk_change. Qed.

Lemma urlretrieve_disk it url :
  it ∈ its → keeps (disk_change its) (urlretrieve E url (filepath_of it)).
Proof.
  intros Hin w p. unfold urlretrieve.
  assert (Hput : ∀ b w0,
            fs w0 = fs w →
            fs (set_fs <[resolve (filepath_of it) := File b]> w0) !! p = fs w !! p
            ∨ (p ∈ target_of <$> its
               ∧ ∃ b', fs (set_fs <[resolve (filepath_of it) := File b]> w0) !! p
                       = Some (File b'))
            ∨ (fs w !! p = None
               ∧ fs (set_fs <[resolve (filepath_of it) := File b]> w0) !! p
                 = Some (Dir 0)
               ∧ p `prefix_of` resolve ASSETS ∧ p ≠ [])).
  { intros b w0 Hw0. simpl. rewrite Hw0.
    destruct (decide (p = resolve (filepath_of it))) as [->|Hne].
    - right. left. split; [by apply (list_elem_of_fmap_2 target_of its it)|].
      exists b. apply lookup_insert_eq.
    - left. by apply lookup_insert_ne. }
  destruct (fetch E w url (filepath_of it)) as [body|e [part|]|]; simpl.
  - by apply Hput.
  - by apply Hput.
  - by left.
  - by left.
Qed.

Lemma try_statement_disk f a p :
  (f, a, p) ∈ its →
  keeps (disk_change its) (try_except (try_body E f a p) Exception (handler E f)).
Proof.
  intros Hin. apply keeps_try_except; [apply _| |intros e; apply print_disk].
  unfold try_body. apply keeps_bind; [apply _|apply replicate_run_disk|].
  intros o. cbv zeta. apply keeps_bind; [apply _| |].
  - apply (urlretrieve_disk (f, a, p) (str o) Hin).
  - intros _. apply keeps_bind; [apply _|apply getsize_disk|].
    intros size. apply print_disk.
Qed.

Lemma pace_disk its0 i : keeps (disk_change its) (pace E its0 i).
Proof.
  unfold pace. case_bool_decide; [|by apply keeps_ret, _].
  apply keeps_bind; [apply _|apply print_disk|]. intros _. apply time_sleep_disk.
Qed.

Lemma loop_body_disk its0 i it :
  it ∈ its → keeps (disk_change its) (loop_body E its0 i it).
Proof.
  destruct it as [[f a] p]. intros Hin. unfold loop_body.
  apply keeps_bind; [apply _|apply print_disk|]. intros _.
  apply keeps_bind; [apply _|by apply try_statement_disk|]. intros _.
  apply pace_disk.
Qed.

Lemma summary_body_disk it : keeps (disk_change its) (summary_body E it).
Proof.
  destruct it as [[f a] p]. unfold summary_body. cbv zeta.
  apply keeps_bind; [apply _|apply exists_disk|]. intros [|].
  - apply keeps_bind; [apply _|apply getsize_disk|]. intros size. apply print_disk.
  - apply print_disk.
Qed.

Lemma os_makedirs_disk : keeps (disk_change its) (os_makedirs E ASSETS true).
Proof.
  intros w. apply (prepared_disk_change its (resolve ASSETS)); [done|].
  apply os_makedirs_prepared.
Qed.

Lemma script_disk : keeps (disk_change its) (script E its).
Proof.
  unfold script. apply keeps_bind; [apply _|apply os_makedirs_disk|]. intros _.
  apply keeps_bind; [apply _| |].
  - unfold generation_loop. apply keeps_for_enumerate; [apply _|].
    intros j it Hit. by apply loop_body_disk.
  - intros _. unfold summary.
    apply keeps_bind; [apply _|apply print_disk|]. intros _.
    apply keeps_bind; [apply _|apply print_disk|]. intros _.
    apply keeps_bind; [apply _|apply print_disk|]. intros _.
    apply keeps_bind; [apply _| |intros _; apply print_disk].
    apply keeps_for_each; [apply _|]. intros it _. apply summary_body_disk.
Qed.

End Disk.

(** X1. Whatever the environment does and however the run ends, by a
    return or by an exception at any point, the script removes nothing
    from the disk: an entry is left as it was, or is replaced by a regular
    file at the place where an item of the list is stored, or is a new
    empty directory on the way to the output directory. *)
Theorem run_never_deletes E its w p :
  let w' := final (script E its w) in
  (fs w' !! p = fs w !! p
   ∨ (p ∈ target_of <$> its ∧ ∃ b, fs w' !! p = Some (File b))
   ∨ (fs w !! p = None ∧ fs w' !! p = Some (Dir 0)
      ∧ p `prefix_of` resolve ASSETS ∧ p ≠ []))
  ∧ (is_Some (fs w !! p) → is_Some (fs w' !! p)).
Proof.
  intros w'. pose proof (script_disk E its w p) as H. fold w' in H.
  split; [exact H|]. intros Hsome.
  destruct H as [->|[(_ & b & ->)|(Hnone & _)]]; [done|eauto|].
  rewrite Hnone in Hsome. by destruct Hsome.
Qed.

(** ** The call log in every run *)

Lemma downloads_follow_nil its : downloads_follow its [].
Proof. intros j url fp r Hj. by rewrite lookup_nil in Hj. Qed.

Lemma downloads_follow_app its cs1 cs2 :
  downloads_follow its cs1 → downloads_follow its cs2 →
  downloads_follow its (cs1 ++ cs2).
Proof.
  intros H1 H2 j url fp r Hj.
  apply lookup_app_Some in Hj as [Hj|[Hlen Hj]].
  - destruct (H1 _ _ _ _ Hj) as (j' & it & o & -> & Hrun & Hrest).
    exists j', it, o. split; [done|]. split; [|done].
    by apply lookup_app_l_Some.
  - destruct (H2 _ _ _ _ Hj) as (j' & it & o & Hjj & Hrun & Hrest).
    exists (length cs1 + j'), it, o. split; [lia|]. split; [|done].
    rewrite lookup_app_r by lia. by replace (length cs1 + j' - length cs1) with j' by lia.
Qed.

Lemma downloads_follow_none its cs :
  (∀ url fp r, Urlretrieve url fp r ∉ cs) → downloads_follow its cs.
Proof.
  intros Hno j url fp r Hj. destruct (Hno url fp r).
  by eapply list_elem_of_lookup_2.
Qed.

Lemma log_grows_preorder its : PreOrder (log_grows its).
Proof.
  split.
  - intros w. exists []. rewrite (right_id_L [] (++)).
    split; [done|]. split; [constructor|apply downloads_follow_nil].
  - intros w1 w2 w3 (cs1 & Hcs1 & Hg1 & Hd1) (cs2 & Hcs2 & Hg2 & Hd2).
    exists (cs1 ++ cs2). split; [by rewrite Hcs2, Hcs1, (assoc_L (++))|].
    split; [by apply Forall_app|by apply downloads_follow_app].
Qed.

Global Existing Instance log_grows_preorder.

Lemma same_log_grows its w w' : calls w' = calls w → log_grows its w w'.
Proof.
  intros Heq. exists []. rewrite (right_id_L [] (++)).
  split; [done|]. split; [constructor|apply downloads_follow_nil].
Qed.

Lemma one_call_grows its w w' c :
  calls w' = calls w ++ [c] → genuine its c →
  (∀ url fp r, c ≠ Urlretrieve url fp r) → log_grows its w w'.
Proof.
  intros Hcs Hg Hno. exists [c]. split; [done|]. split; [by repeat constructor|].
  apply downloads_follow_none. intros url fp r Hin.
  apply list_elem_of_singleton in Hin. by destruct (Hno url fp r).
Qed.

Section Log.
Context (E : env) (its : list item).

Lemma print_log line : keeps (log_grows its) (print E line).
Proof.
  intros w. apply same_log_grows. unfold print. by destruct (console E w line).
Qed.

Lemma time_sleep_log : keeps (log_grows its) (time_sleep E 65).
Proof.
  intros w. apply (one_call_grows its w _ (Sleep 65 (timer E w 65))); [|done|done].
  unfold time_sleep. by destruct (timer E w 65).
Qed.

Lemma getsize_log fp : keeps (log_grows its) (os_path_getsize fp).
Proof.
  intros w. apply same_log_grows. unfold os_path_getsize.
  by destruct (fs w !! resolve fp) as [[]|].
Qed.

Lemma exists_log fp : keeps (log_grows its) (os_path_exists fp).
Proof. intros w. by apply same_log_grows. Qed.

(** The request and the download of an item, taken together. *)
Lemma request_download_log f a p :
  (f, a, p) ∈ its →
  keeps (log_grows its)
    (output ← replicate_run E model_ref (request a p);
     urlretrieve E (str output) (os_path_join ASSETS f)).
Proof.
  intros Hin w.
  assert (Hgen : ∀ r, genuine its (Run model_ref (request a p) r)).
  { intros r. split; [done|]. by exists (f, a, p). }
  unfold mbind, M_bind, replicate_run.
  destruct (service E w model_ref (request a p)) as [e|o] eqn:Hs; cbv zeta.
  - by apply (one_call_grows its w _ (Run model_ref (request a p) (inl e))).
  - unfold urlretrieve.
    set (w1 := log (Run model_ref (request a p) (inr o)) w).
    set (r := fetch E w1 (str o) (os_path_join ASSETS f)).
    exists [Run model_ref (request a p) (inr o);
            Urlretrieve (str o) (os_path_join ASSETS f) r].
    split; [|split].
    + destruct r as [body|e [part|]|]; simpl; by rewrite <- (assoc_L (++)).
    + apply Forall_cons. split; [apply Hgen|].
      apply Forall_cons. split; [done|constructor].
    + intros j url fp r' Hj. destruct j as [|[|j]]; simpl in Hj; try done.
      injection Hj as <- <- <-. by exists 0, (f, a, p), o.
Qed.

Lemma try_statement_log f a p :
  (f, a, p) ∈ its →
  keeps (log_grows its) (try_except (try_body E f a p) Exception (handler E f)).
Proof.
  intros Hin. apply keeps_try_except; [apply _| |intros e; apply print_log].
  intros w.
  pose proof (request_download_log f a p Hin w) as Hrd.
  unfold try_body. unfold mbind, M_bind in *.
  destruct (replicate_run E model_ref (request a p) w) as [o w1|e w1]; [|done].
  cbv zeta.
  destruct (urlretrieve E (str o) (os_path_join ASSETS f) w1) as [[] w2|e w2]; [|done].
  etrans; [exact Hrd|].
  apply (keeps_bind (log_grows its) (os_path_getsize (os_path_join ASSETS f))
           (λ size, print E (saved_notice f size))).
  - apply getsize_log.
  - intros size. apply print_log.
Qed.

Lemma pace_log its0 i : keeps (log_grows its) (pace E its0 i).
Proof.
  unfold pace. case_bool_decide; [|by apply keeps_ret, _].
  apply keeps_bind; [apply _|apply print_log|]. intros _. apply time_sleep_log.
Qed.

Lemma loop_body_log its0 i it :
  it ∈ its → keeps (log_grows its) (loop_body E its0 i it).
Proof.
  destruct it as [[f a] p]. intros Hin. unfold loop_body.
  apply keeps_bind; [apply _|apply print_log|]. intros _.
  apply keeps_bind; [apply _|by apply try_statement_log|]. intros _.
  apply pace_log.
Qed.

Lemma summary_body_log it : keeps (log_grows its) (summary_body E it).
Proof.
  destruct it as [[f a] p]. unfold summary_body. cbv zeta.
  apply keeps_bind; [apply _|apply exists_log|]. intros [|].
  - apply keeps_bind; [apply _|apply getsize_log|]. intros size. apply print_log.
  - apply print_log.
Qed.

Lemma os_makedirs_log : keeps (log_grows its) (os_makedirs E ASSETS true).
Proof.
  intros w. destruct (prepared_calls _ _ _ (os_makedirs_prepared E w)) as (cs & Hcs & Hmk).
  exists cs. split; [done|]. split.
  - eapply Forall_impl; [exact Hmk|]. intros c Hc. by destruct c.
  - apply downloads_follow_none. intros url fp r Hin.
    eapply Forall_forall in Hmk; [|exact Hin]. done.
Qed.

Lemma script_log : keeps (log_grows its) (script E its).
Proof.
  unfold script. apply keeps_bind; [apply _|apply os_makedirs_log|]. intros _.
  apply keeps_bind; [apply _| |].
  - unfold generation_loop. apply keeps_for_enumerate; [apply _|].
    intros j it Hit. by apply loop_body_log.
  - intros _. unfold summary.
    apply keeps_bind; [apply _|apply print_log|]. intros _.
    apply keeps_bind; [apply _|apply print_log|]. intros _.
    apply keeps_bind; [apply _|apply print_log|]. intros _.
    apply keeps_bind; [apply _| |intros _; apply print_log].
    apply keeps_for_each; [apply _|]. intros it _. apply summary_body_log.
Qed.

End Log.

(** X2. In every run, however it ends, the external calls are orderly:
    each request goes to the model [black-forest-labs/flux-1.1-pro] with
    the prompt and aspect ratio of an item of the list, each sleep lasts
    65 seconds, and each download comes directly after a request the
    service answered, fetches the URL of that answer and writes to
    [<output_dir>/<filename>] of the same item.  Nothing is downloaded for
    a request the service refused. *)
Theorem calls_are_orderly E its w :
  ∃ cs, calls (final (script E its w)) = calls w ++ cs
    ∧ (∀ ref input r, Run ref input r ∈ cs →
         ref = "black-forest-labs/flux-1.1-pro"
         ∧ ∃ f a p, (f, a, p) ∈ its
                    ∧ input = {| in_prompt := p; in_aspect_ratio := a;
                                 in_output_format := "png";
                                 in_safety_tolerance := 5 |})
    ∧ (∀ secs r, Sleep secs r ∈ cs → secs = 65%Z)
    ∧ (∀ j url fp r, cs !! j = Some (Urlretrieve url fp r) →
         ∃ j' it o, j = S j'
                    ∧ cs !! j' = Some (Run model_ref (input_of it) (inr o))
                    ∧ it ∈ its ∧ url = str o
                    ∧ fp = os_path_join ASSETS (filename_of it)).
Proof.
  destruct (script_log E its w) as (cs & Hcs & Hgen & Hdl).
  exists cs. split; [done|]. split; [|split; [|exact Hdl]].
  - intros ref input r Hin. eapply Forall_forall in Hgen; [|exact Hin].
    destruct Hgen as (-> & [[f a] p] & Hit & ->). split; [done|]. by exists f, a, p.
  - intros secs r Hin. by eapply Forall_forall in Hgen; [|exact Hin].
Qed.

(** ** The rhythm in every run *)



Section Beats.
Context (E : env).







End Beats.

Lemma only_printed_preorder : PreOrder only_printed.
Proof.
  split.
  - by intros w.
  - intros w1 w2 w3 [Hf1 Hc1] [Hf2 Hc2]. split; congruence.
Qed.

Global Existing Instance only_printed_preorder.

Section Printed.
Context (E : env).




End Printed.


(** ** What else ends a run *)

(** X4. The failure notice is printed by the handler and the waiting
    notice by the pacing step, both outside the [try]: an exception, of
    any class, raised while printing one of them ends the whole run. *)
Theorem notices_unprotected E pre f a p rest w0 e :
  let its := pre ++ (f, a, p) :: rest in
  let reached :=
    (os_makedirs E ASSETS true ;; for_enumerate 0 pre (loop_body E its)) w0 in
  let notice := progress_notice (len pre) (len its) f a in
  let w := emit notice (final reached) in
  succeeds reached = true →
  console E (final reached) notice = None →
  (∀ e' w1,
     try_body E f a p w = Raise e' w1 →
     isinstance e' Exception = true →
     console E w1 (fail_notice f e') = Some e →
     script E its w0 = Raise e w1)
  ∧ (∀ w1,
       try_except (try_body E f a p) Exception (handler E f) w = Ok () w1 →
       rest ≠ [] →
       console E w1 waiting_notice = Some e →
       script E its w0 = Raise e w1).
Proof.
  intros its reached notice w Hreach Hprog.
  destruct (final_Ok _ Hreach) as ([] & Hw).
  pose proof (script_from E pre (f, a, p) rest w0 _ Hw) as Hscript.
  subst its. split.
  - intros e' w1 Hraise Hexc Hfail. rewrite Hscript.
    apply bind_Raise. unfold loop_body.
    erewrite bind_Ok by (by apply print_ok).
    apply bind_Raise. erewrite try_except_caught; [|exact Hraise|exact Hexc].
    unfold handler. by apply print_raises.
  - intros w1 Htry Hrest Hwait. rewrite Hscript.
    apply bind_Raise. unfold loop_body.
    erewrite bind_Ok by (by apply print_ok).
    erewrite bind_Ok by exact Htry.
    unfold pace. rewrite bool_decide_eq_true_2.
    + apply bind_Raise. by apply print_raises.
    + rewrite len_app, len_cons.
      destruct rest; [done|]. rewrite len_cons. unfold len. lia.
Qed.

(** The example list: the request of the first item is refused and the
    console breaks on its failure notice. *)
Lemma notices_unprotected_witness :
  ∃ w1, script speechless two_items nothing = Raise broken_pipe w1.
Proof.
  pose proof (notices_unprotected speechless [] "a.png" "1:1" "x"
                [("b.png", "16:9", "y")] nothing broken_pipe) as H.
  cbv zeta in H. destruct H as (H & _).
  - vm_compute. reflexivity.
  - vm_compute. reflexivity.
  - eexists. eapply (H service_down).
    + unfold try_body. apply bind_Raise. by apply replicate_run_raises.
    + reflexivity.
    + vm_compute. reflexivity.
Defined.

(** X5. The handler catches [Exception] only.  An exception that is not
    one (a keyboard interrupt, an exit request) raised by the service call
    or by the download passes through it: no failure notice is printed and
    the whole run ends with that exception. *)
Theorem other_exceptions_pass E pre f a p rest w0 e :
  let its := pre ++ (f, a, p) :: rest in
  let reached :=
    (os_makedirs E ASSETS true ;; for_enumerate 0 pre (loop_body E its)) w0 in
  let notice := progress_notice (len pre) (len its) f a in
  let w := emit notice (final reached) in
  let fp := os_path_join ASSETS f in
  succeeds reached = true →
  console E (final reached) notice = None →
  isinstance e Exception = false →
  (service E w model_ref (request a p) = inl e →
   script E its w0 = Raise e (log (Run model_ref (request a p) (inl e)) w))
  ∧ (∀ o part,
       let w1 := log (Run model_ref (request a p) (inr o)) w in
       service E w model_ref (request a p) = inr o →
       fetch E w1 (str o) fp = FetchFailed e part →
       script E its w0
       = Raise e (leave part fp
                    (log (Urlretrieve (str o) fp (FetchFailed e part)) w1))).
Proof.
  intros its reached notice w fp Hreach Hprog Hexc.
  destruct (final_Ok _ Hreach) as ([] & Hw).
  pose proof (script_from E pre (f, a, p) rest w0 _ Hw) as Hscript.
  subst its. split.
  - intros Hs. rewrite Hscript.
    apply bind_Raise. unfold loop_body.
    erewrite bind_Ok by (by apply print_ok).
    apply bind_Raise. apply try_except_passed; [|done].
    unfold try_body. apply bind_Raise. by apply replicate_run_raises.
  - intros o part w1 Hs Hf. rewrite Hscript.
    apply bind_Raise. unfold loop_body.
    erewrite bind_Ok by (by apply print_ok).
    apply bind_Raise. apply try_except_passed; [|done].
    unfold try_body. erewrite bind_Ok by (by apply replicate_run_ok). cbv zeta.
    apply bind_Raise. by apply urlretrieve_raises.
Qed.

(** The example list, the first service call interrupted. *)
Lemma other_exceptions_pass_witness :
  ∃ w1, script interrupted two_items nothing = Raise keyboard_interrupt w1
        ∧ stdout w1 = [progress_notice 0 2 "a.png" "1:1"].
Proof.
  pose proof (other_exceptions_pass interrupted [] "a.png" "1:1" "x"
                [("b.png", "16:9", "y")] nothing keyboard_interrupt) as H.
  cbv zeta in H. destruct H as (H & _).
  - vm_compute. reflexivity.
  - reflexivity.
  - reflexivity.
  - eexists. split; [apply H; reflexivity|]. vm_compute. reflexivity.
Defined.

(** ** Files and the lines about them *)

(** The loop cut at an item, with what was printed before and after. *)
Lemma looped_split_stdout E n i pre it post w w' :
  looped E n i (pre ++ it :: post) w w' →
  ∃ wm w1 ls1 ls2,
    looped E n i pre w wm
    ∧ tried E it (emit (progress_notice (i + len pre) n (filename_of it)
                          (aspect_of it)) wm) w1
    ∧ looped E n (i + len pre + 1) post (paced n (i + len pre) w1) w'
    ∧ stdout wm = stdout w ++ ls1
    ∧ stdout w' = stdout w1 ++ ls2.
Proof.
  intros Hloop. apply looped_split in Hloop as (wm & w1 & Hpre & Htried & Hpost).
  destruct (looped_stdout E _ _ _ _ _ Hpre) as (ls1 & Hls1).
  destruct (looped_stdout E _ _ _ _ _ Hpost) as (ls2 & Hls2).
  rewrite paced_stdout in Hls2.
  exists wm, w1, ls1,
    ((if bool_decide (i + len pre < n - 1)%Z then [waiting_notice] else []) ++ ls2).
  repeat (split; [done|]).
  by rewrite Hls2, (assoc_L (++)).
Qed.

(** An item whose download always breaks off ends with the failure notice
    and the part that was written. *)
Lemma tried_partial_inv E it w w1 e part :
  tried E it w w1 →
  service_succeeds E →
  (∀ w' url, fetch E w' url (filepath_of it) = FetchFailed e (Some part)) →
  ∃ w0, w1 = emit (fail_notice (filename_of it) e)
               (set_fs <[target_of it := File part]> w0).
Proof.
  intros [e' Hs He|o e' part' Hs w0 Hf He|o body Hs w0 Hf
          |o Hs w0 Hf Hgone|o n Hs w0 Hf Hstale] Hserv Hfetch.
  - destruct (Hserv w model_ref (input_of it)) as (o & Ho). congruence.
  - rewrite Hfetch in Hf. injection Hf as <- <-. by eexists.
  - rewrite Hfetch in Hf. done.
  - rewrite Hfetch in Hf. done.
  - rewrite Hfetch in Hf. done.
Qed.

(** X6. A download that fails after writing part of the file leaves that
    part on disk, and the summary cannot tell: for an item whose download
    always breaks off, the run prints the item's failure notice and later
    lists the item as present, with the size of the truncated file. *)
Theorem truncated_file_reported E its k itk e part w :
  console_ok E → timer_ok E → errors_are_exceptions E → service_succeeds E →
  (∀ w' url, fetch E w' url (filepath_of itk) = FetchFailed e (Some part)) →
  its !! k = Some itk →
  Forall (λ it, plain_name (filename_of it) = true) its →
  NoDup (filename_of <$> its) →
  succeeds (os_makedirs E ASSETS true w) = true →
  ∃ w' ls, script E its w = Ok () w'
    ∧ stdout w' = stdout w ++ ls
    ∧ fail_notice (filename_of itk) e ∈ ls
    ∧ fs w' !! target_of itk = Some (File part)
    ∧ present_line (filename_of itk) (len part) ∈ ls.
Proof.
  intros Hc Ht He Hs Hfetch Hk Hplain Hnd (w0 & Hprep)%succeeds_Ok.
  destruct (script_looped E its w w0 Hc Ht He Hprep) as (w1 & Hloop & Hrun).
  pose proof (os_makedirs_prepared E w) as Hp. rewrite Hprep in Hp. simpl in Hp.
  pose proof (targets_NoDup its Hplain Hnd) as Htargets.
  pose proof (take_drop_middle its k itk Hk) as Hcut.
  pose proof Hloop as Hloop'. rewrite <- Hcut in Hloop'.
  apply looped_split_stdout in Hloop'
    as (wm & w2 & ls1 & ls2 & Hpre & Htried & Hpost & Hls1 & Hls2).
  destruct (tried_partial_inv E _ _ _ e part Htried Hs Hfetch) as (wx & Hw2).
  rewrite <- Hcut in Htargets. rewrite fmap_app, fmap_cons in Htargets.
  apply NoDup_app in Htargets as (_ & _ & Hnd_post).
  apply NoDup_cons in Hnd_post as (Hnotin_post & _).
  assert (Hfsk : fs w1 !! target_of itk = Some (File part)).
  { rewrite (looped_frame E _ _ _ _ _ _ Hpost Hnotin_post), paced_fs, Hw2. simpl.
    apply lookup_insert_eq. }
  destruct (tried_stdout E _ _ _ Htried) as (line & Hline).
  assert (Hlast : line = fail_notice (filename_of itk) e).
  { rewrite Hw2 in Hline. simpl in Hline.
    apply (f_equal reverse) in Hline. rewrite !reverse_snoc in Hline.
    by injection Hline as <- _. }
  subst line. simpl in Hline. rewrite Hls1 in Hline. rewrite Hline in Hls2.
  rewrite (prepared_stdout _ _ _ Hp) in Hls2.
  eexists _, _. split; [exact Hrun|]. simpl. split; [|split; [|split]].
  - rewrite Hls2, <- !(assoc_L (++)). reflexivity.
  - rewrite !elem_of_app. right. right. left. by apply list_elem_of_singleton.
  - done.
  - assert (Hsum : summary_line (fs w1) itk = present_line (filename_of itk) (len part)).
    { unfold summary_line. by rewrite Hfsk. }
    assert (Hin : itk ∈ its) by (by eapply list_elem_of_lookup_2).
    rewrite !elem_of_app. do 4 right. unfold summary_report. rewrite <- Hsum.
    rewrite !elem_of_app. right. left. by apply list_elem_of_fmap_2.
Qed.

Lemma truncating_errors : errors_are_exceptions truncating.
Proof.
  split.
  - intros w ref input e. done.
  - intros w url fp e part. simpl. by intros [= <- _].
Qed.

(** The example list with downloads that break off after four bytes. *)
Lemma truncated_file_reported_witness :
  ∃ w' ls, script truncating two_items nothing = Ok () w'
    ∧ stdout w' = stdout nothing ++ ls
    ∧ fail_notice (filename_of (two_items !!! 0)) content_too_short ∈ ls
    ∧ fs w' !! target_of (two_items !!! 0) = Some (File (replicate 4 x00))
    ∧ present_line (filename_of (two_items !!! 0)) (len (replicate 4 x00)) ∈ ls.
Proof.
  refine (truncated_file_reported truncating two_items 0 (two_items !!! 0)
            content_too_short (replicate 4 x00) nothing
            _ _ truncating_errors _ _ eq_refl _ _ _).
  - intros w line. reflexivity.
  - intros w secs. reflexivity.
  - intros w ref input. by eexists.
  - intros w url. reflexivity.
  - unfold two_items. repeat (constructor; [by vm_compute|]). constructor.
  - apply (bool_decide_unpack (NoDup (filename_of <$> two_items))).
    vm_compute. exact I.
  - vm_compute. reflexivity.
Defined.

(** X7. In a run where service and downloads succeed, over a list of
    plain, distinct names, the size an item's success notice announces is
    the size the summary later reports for it: both are the size of the
    body that item's download wrote, which is the file's content when the
    run ends. *)
Theorem sizes_agree E its w :
  console_ok E → timer_ok E → service_succeeds E → download_succeeds E →
  Forall (λ it, plain_name (filename_of it) = true) its →
  NoDup (filename_of <$> its) →
  succeeds (os_makedirs E ASSETS true w) = true →
  ∃ w' ls, script E its w = Ok () w'
    ∧ stdout w' = stdout w ++ ls
    ∧ ∀ it, it ∈ its →
        ∃ body, fs w' !! target_of it = Some (File body)
                ∧ saved_notice (filename_of it) (len body) ∈ ls
                ∧ present_line (filename_of it) (len body) ∈ ls.
Proof.
  intros Hc Ht Hs Hd Hplain Hnd (w0 & Hprep)%succeeds_Ok.
  destruct (script_looped E its w w0 Hc Ht (succeeding_errors E Hs Hd) Hprep)
    as (w1 & Hloop & Hrun).
  pose proof (os_makedirs_prepared E w) as Hp. rewrite Hprep in Hp. simpl in Hp.
  pose proof (targets_NoDup its Hplain Hnd) as Htargets.
  destruct (looped_stdout E _ _ _ _ _ Hloop) as (ls & Hls).
  rewrite (prepared_stdout _ _ _ Hp) in Hls.
  exists (emits (summary_report (fs w1) its) w1), (ls ++ summary_report (fs w1) its).
  split; [exact Hrun|]. split.
  { simpl. by rewrite Hls, (assoc_L (++)). }
  intros it Hin. pose proof Hin as Hin'.
  apply list_elem_of_split in Hin as (pre & post & ->).
  rewrite fmap_app, fmap_cons in Htargets.
  apply NoDup_app in Htargets as (_ & _ & Hnd_post).
  apply NoDup_cons in Hnd_post as (Hnotin_post & _).
  apply looped_split_stdout in Hloop
    as (wm & w2 & ls1 & ls2 & Hpre & Htried & Hpost & Hls1 & Hls2).
  destruct (tried_saved_inv E _ _ _ Htried) as (o & b & Hw2); [apply Hs|done|].
  exists b.
  assert (Hfs : fs w1 !! target_of it = Some (File b)).
  { rewrite (looped_frame E _ _ _ _ _ _ Hpost Hnotin_post), paced_fs, Hw2. simpl.
    apply lookup_insert_eq. }
  split; [exact Hfs|]. split.
  - rewrite Hw2 in Hls2. simpl in Hls2.
    rewrite Hls1, (prepared_stdout _ _ _ Hp) in Hls2.
    rewrite Hls2, <- !(assoc_L (++)) in Hls.
    apply app_inv_head in Hls as <-.
    rewrite !elem_of_app. left. right. right. left. by apply list_elem_of_singleton.
  - assert (Hsum : summary_line (fs w1) it = present_line (filename_of it) (len b)).
    { unfold summary_line. by rewrite Hfs. }
    rewrite elem_of_app. right. unfold summary_report. rewrite <- Hsum.
    rewrite !elem_of_app. right. left. by apply list_elem_of_fmap_2.
Qed.

(** The script on its own list, everything working, from an empty disk. *)
Lemma sizes_agree_witness :
  ∃ w' ls, script quiet images nothing = Ok () w'
    ∧ stdout w' = stdout nothing ++ ls
    ∧ ∀ it, it ∈ images →
        ∃ body, fs w' !! target_of it = Some (File body)
                ∧ saved_notice (filename_of it) (len body) ∈ ls
                ∧ present_line (filename_of it) (len body) ∈ ls.
Proof.
  refine (sizes_agree quiet images nothing quiet_console quiet_timer
            quiet_service quiet_download images_plain images_distinct _).
  vm_compute. reflexivity.
Defined.

(** ** The lines of a run *)

Lemma tried_outcome_line E it w w1 :
  tried E it w w1 → ∃ line, stdout w1 = stdout w ++ [line] ∧ outcome_line it line.
Proof.
  intros [e Hs He|o e part Hs w0 Hf He|o body Hs w0 Hf
          |o Hs w0 Hf Hgone|o n Hs w0 Hf Hstale].
  - eexists. split; [done|]. right. by eexists.
  - eexists. split; [by destruct part|]. right. by eexists.
  - eexists. split; [done|]. left. by eexists.
  - eexists. split; [done|]. right. by eexists.
  - eexists. split; [done|]. left. by eexists.
Qed.

Lemma looped_transcript E n i its w w' :
  looped E n i its w w' →
  ∃ outs, Forall2 outcome_line its outs
          ∧ stdout w' = stdout w ++ transcript n i its outs.
Proof.
  induction 1 as [i w|i it its w w1 w' Htried Hloop (outs & Houts & IH)].
  - exists []. split; [constructor|]. simpl. by rewrite (right_id_L [] (++)).
  - destruct (tried_outcome_line E _ _ _ Htried) as (line & Hline & Hout).
    exists (line :: outs). split; [by constructor|].
    rewrite IH, paced_stdout, Hline. simpl.
    by rewrite <- !(assoc_L (++)).
Qed.

(** X8. What a run that goes through prints, line by line: for each item
    in turn the progress notice with its 1-based index and the length of
    the list, then the item's success or failure notice, then the waiting
    notice unless the item is the last; after the loop the summary header,
    one summary line per item and [DONE]; and nothing else. *)
Theorem stdout_of_a_run E its w :
  console_ok E → timer_ok E → errors_are_exceptions E →
  succeeds (os_makedirs E ASSETS true w) = true →
  ∃ w' outs,
    script E its w = Ok () w'
    ∧ Forall2 outcome_line its outs
    ∧ stdout w' = stdout w ++ transcript (len its) 0 its outs
                    ++ [newline +:+ rule; "SUMMARY"; rule]
                    ++ (summary_line (fs w') <$> its) ++ ["DONE"].
Proof.
  intros Hc Ht He (w0 & Hprep)%succeeds_Ok.
  destruct (script_looped E its w w0 Hc Ht He Hprep) as (w1 & Hloop & Hrun).
  pose proof (os_makedirs_prepared E w) as Hp. rewrite Hprep in Hp. simpl in Hp.
  destruct (looped_transcript E _ _ _ _ _ Hloop) as (outs & Houts & Hls).
  exists (emits (summary_report (fs w1) its) w1), outs.
  split; [exact Hrun|]. split; [exact Houts|]. simpl.
  rewrite Hls, (prepared_stdout _ _ _ Hp). unfold summary_report.
  by rewrite <- !(assoc_L (++)).
Qed.

(** The example list, everything working, from an empty disk. *)
Lemma stdout_of_a_run_witness :
  ∃ w' outs,
    script quiet two_items nothing = Ok () w'
    ∧ Forall2 outcome_line two_items outs
    ∧ stdout w' = stdout nothing ++ transcript (len two_items) 0 two_items outs
                    ++ [newline +:+ rule; "SUMMARY"; rule]
                    ++ (summary_line (fs w') <$> two_items) ++ ["DONE"].
Proof.
  refine (stdout_of_a_run quiet two_items nothing quiet_console quiet_timer
            (succeeding_errors quiet quiet_service quiet_download) _).
  vm_compute. reflexivity.
Defined.

(** ** A file where the directory should be *)

(** On a regular file, the leaf step of [os.makedirs] lets the error of
    [os.mkdir] out, also with [exist_ok=True]. *)
Lemma mkdir_leaf_file E p c ok w :
  p ≠ [] → fs w !! p = Some (File c) →
  ∃ e, mkdir_leaf E p ok w = Raise e (log (Mkdir p (Some e)) w)
       ∧ isinstance e OSError = true.
Proof.
  intros Hne Hfile.
  assert (Hsome : is_Some (fs w !! p)) by (by rewrite Hfile).
  destruct (mkdir_error_exists _ _ Hne Hsome) as (e0 & He0 & Hos0).
  assert (Hnodir : path_isdir (fs w) p = false).
  { unfold path_isdir. by rewrite Hfile. }
  unfold mkdir_leaf, try_except, os_mkdir.
  destruct (mkdir_refused E w p) as [msg|].
  - exists (Exn OSError msg). simpl. by rewrite Hnodir, orb_true_r.
  - exists e0. rewrite He0. cbv beta iota zeta. rewrite Hos0. simpl.
    by rewrite Hnodir, orb_true_r.
Qed.

(** X9. [exist_ok=True] forgives a directory, not a file: when the path
    of the output directory is taken by a regular file, directory
    preparation raises an [OSError] and the run ends there, before any
    line is printed and before any request is sent, with the disk as it
    was. *)
Theorem file_in_the_way E its w c :
  fs w !! resolve ASSETS = Some (File c) →
  path_exists (fs w) (parent (resolve ASSETS)) = true →
  ∃ e w', script E its w = Raise e w'
          ∧ isinstance e OSError = true
          ∧ fs w' = fs w
          ∧ stdout w' = stdout w
          ∧ calls w' = calls w ++ [Mkdir (resolve ASSETS) (Some e)].
Proof.
  intros Hfile Hpar.
  destruct (mkdir_leaf_file E (resolve ASSETS) c true w) as (e & Hleaf & Hos);
    [by rewrite resolve_ASSETS|done|].
  exists e, (log (Mkdir (resolve ASSETS) (Some e)) w).
  split; [|done].
  unfold script. apply bind_Raise. unfold os_makedirs.
  rewrite reverse_resolve_ASSETS. cbn [makedirs_rev].
  erewrite bind_Ok with (a := false) (w1 := w).
  - rewrite <- reverse_resolve_ASSETS, reverse_involutive. exact Hleaf.
  - unfold make_head.
    replace (reverse ["public"; "card-ledger"; "projects"; "workspace";
                      ".openclaw"; "useva"; "Users"; "C:"])
      with (parent (resolve ASSETS)) by (by rewrite resolve_ASSETS).
    by rewrite Hpar, andb_false_r.
Qed.

Lemma file_in_the_way_witness :
  ∃ e w', script quiet images blocked = Raise e w'
          ∧ isinstance e OSError = true
          ∧ fs w' = fs blocked
          ∧ stdout w' = stdout blocked
          ∧ calls w' = calls blocked ++ [Mkdir (resolve ASSETS) (Some e)].
Proof.
  refine (file_in_the_way quiet images blocked [] _ _).
  - vm_compute. reflexivity.
  - vm_compute. reflexivity.
Defined.

(** ** A stale file *)

(** X10. The summary looks at the disk, not at what the run did: for an
    item whose request the service refuses, the entry is what it was
    before the run, and the item's summary line is the one the disk before
    the run gives.  A file left by an earlier run is listed as present,
    with its old size, in the run that printed the item's failure
    notice. *)
Theorem stale_file_reported E its k itk e w :
  console_ok E → timer_ok E → errors_are_exceptions E →
  (∀ w', service E w' model_ref (input_of itk) = inl e) →
  its !! k = Some itk →
  Forall (λ it, plain_name (filename_of it) = true) its →
  NoDup (filename_of <$> its) →
  succeeds (os_makedirs E ASSETS true w) = true →
  ∃ w' ls, script E its w = Ok () w'
    ∧ stdout w' = stdout w ++ ls
    ∧ fail_notice (filename_of itk) e ∈ ls
    ∧ fs w' !! target_of itk = fs w !! target_of itk
    ∧ summary_line (fs w) itk ∈ ls
    ∧ (∀ c, fs w !! target_of itk = Some (File c) →
            present_line (filename_of itk) (len c) ∈ ls).
Proof.
  intros Hc Ht He Hrefuse Hk Hplain Hnd (w0 & Hprep)%succeeds_Ok.
  destruct (script_looped E its w w0 Hc Ht He Hprep) as (w1 & Hloop & Hrun).
  pose proof (os_makedirs_prepared E w) as Hp. rewrite Hprep in Hp. simpl in Hp.
  pose proof (targets_NoDup its Hplain Hnd) as Htargets.
  pose proof (take_drop_middle its k itk Hk) as Hcut.
  pose proof Hloop as Hloop'. rewrite <- Hcut in Hloop'.
  apply looped_split_stdout in Hloop'
    as (wm & w2 & ls1 & ls2 & Hpre & Htried & Hpost & Hls1 & Hls2).
  pose proof (tried_failed_inv E _ _ _ e Htried (Hrefuse _)) as Hw2.
  rewrite <- Hcut in Htargets. rewrite fmap_app, fmap_cons in Htargets.
  apply NoDup_app in Htargets as (_ & Hpre_post & Hnd_post).
  apply NoDup_cons in Hnd_post as (Hnotin_post & _).
  assert (Hnotin_pre : target_of itk ∉ target_of <$> take k its).
  { intros Hin. apply (Hpre_post _ Hin). left. }
  assert (Hfsk : fs w1 !! target_of itk = fs w !! target_of itk).
  { rewrite (looped_frame E _ _ _ _ _ _ Hpost Hnotin_post), paced_fs, Hw2. simpl.
    rewrite (looped_frame E _ _ _ _ _ _ Hpre Hnotin_pre).
    apply (prepared_target _ _ _ _ Hp), target_not_prefix.
    by eapply Forall_lookup_1 in Hplain. }
  rewrite Hw2 in Hls2. simpl in Hls2.
  rewrite Hls1, (prepared_stdout _ _ _ Hp) in Hls2.
  assert (Hsum : summary_line (fs w1) itk = summary_line (fs w) itk).
  { unfold summary_line. by rewrite Hfsk. }
  assert (Hin : itk ∈ its) by (by eapply list_elem_of_lookup_2).
  assert (Hline : summary_line (fs w) itk ∈ summary_report (fs w1) its).
  { unfold summary_report. rewrite <- Hsum.
    rewrite !elem_of_app. right. left. by apply list_elem_of_fmap_2. }
  eexists _, _. split; [exact Hrun|]. simpl.
  split; [|split; [|split; [|split]]].
  - rewrite Hls2, <- !(assoc_L (++)). reflexivity.
  - rewrite !elem_of_app. right. right. left. by apply list_elem_of_singleton.
  - done.
  - rewrite !elem_of_app. do 4 right. exact Hline.
  - intros c Hfile. rewrite !elem_of_app. do 4 right.
    unfold summary_line in Hline. by rewrite Hfile in Hline.
Qed.

Lemma refusing_errors : errors_are_exceptions refusing.
Proof.
  split.
  - intros w ref input e. simpl. by intros [= <-].
  - intros w url fp e part. done.
Qed.

(** The example list, every request refused, on a disk that holds an old
    [a.png] of three KiB. *)
Lemma stale_file_reported_witness :
  ∃ w' ls, script refusing two_items left_over = Ok () w'
    ∧ stdout w' = stdout left_over ++ ls
    ∧ fail_notice "a.png" service_down ∈ ls
    ∧ present_line "a.png" (len (replicate 3072 x00)) ∈ ls.
Proof.
  destruct (stale_file_reported refusing two_items 0 ("a.png", "1:1", "x")
              service_down left_over)
    as (w' & ls & Hrun & Hls & Hfail & _ & _ & Hstale).
  - intros w line. reflexivity.
  - intros w secs. reflexivity.
  - apply refusing_errors.
  - intros w. reflexivity.
  - reflexivity.
  - unfold two_items. repeat (constructor; [by vm_compute|]). constructor.
  - apply (bool_decide_unpack (NoDup (filename_of <$> two_items))).
    vm_compute. exact I.
  - vm_compute. reflexivity.
  - exists w', ls. split; [exact Hrun|]. split; [exact Hls|]. split; [exact Hfail|].
    apply (Hstale (replicate 3072 x00)). apply lookup_insert_eq.
Defined.

(** ** Sizes in KiB *)

(** X11. Sizes are printed in whole KiB, rounded down: a file of [k] KiB
    and up to 1023 bytes more is printed as [k KB], in the success notice
    and in the summary alike, so a file of less than 1024 bytes shows as
    [0 KB]. *)
Theorem sizes_round_down f k size :
  (0 ≤ k)%Z → (k * 1024 ≤ size < (k + 1) * 1024)%Z →
  saved_notice f size = "  OK Saved: " +:+ f +:+ " (" +:+ pretty k +:+ " KB)"
  ∧ present_line f size = "  OK " +:+ f +:+ ": " +:+ pretty k +:+ " KB"
  ∧ (k = 0%Z → present_line f size = "  OK " +:+ f +:+ ": 0 KB").
Proof.
  intros Hk Hsize.
  assert (Hdiv : (size / 1024 = k)%Z).
  { symmetry. apply (Z.div_unique size 1024 k (size - k * 1024)); lia. }
  unfold saved_notice, present_line. rewrite Hdiv.
  split; [done|]. split; [done|]. by intros ->.
Qed.

Lemma sizes_round_down_witness :
  saved_notice "hero-bg.png" 1023
  = "  OK Saved: " +:+ "hero-bg.png" +:+ " (" +:+ pretty 0%Z +:+ " KB)"
  ∧ present_line "hero-bg.png" 1023
    = "  OK " +:+ "hero-bg.png" +:+ ": " +:+ pretty 0%Z +:+ " KB"
  ∧ (0%Z = 0%Z → present_line "hero-bg.png" 1023 = "  OK " +:+ "hero-bg.png" +:+ ": 0 KB").
Proof. apply (sizes_round_down "hero-bg.png" 0 1023); lia. Defined.

(** ** Where the items are stored *)

(** X12. The file name of an item goes into [os.path.join] as it is.  For
    plain names (one component: not empty, no separator, no drive, not a
    dot name) an item is stored directly in the output directory, under
    its own name; items with different names are stored at different
    places; and no item is stored at the output directory or above it.
    An empty name is not plain: it names the output directory itself. *)
Theorem item_paths its :
  Forall (λ it, plain_name (filename_of it) = true) its →
  (∀ it, it ∈ its →
     resolve (os_path_join ASSETS (filename_of it))
     = resolve ASSETS ++ [filename_of it])
  ∧ (NoDup (filename_of <$> its) →
     NoDup ((λ it, resolve (os_path_join ASSETS (filename_of it))) <$> its))
  ∧ (∀ it p, it ∈ its → p `prefix_of` resolve ASSETS →
             resolve (os_path_join ASSETS (filename_of it)) ≠ p)
  ∧ resolve (os_path_join ASSETS EmptyString) = resolve ASSETS.
Proof.
  intros Hplain. split; [|split; [|split]].
  - intros it Hin. apply (target_plain it).
    by eapply Forall_forall in Hplain.
  - intros Hnd. by apply (targets_NoDup its).
  - intros it p Hin Hpre Heq. subst p.
    apply (target_not_prefix it); [|exact Hpre].
    by eapply Forall_forall in Hplain.
  - by vm_compute.
Qed.

Lemma item_paths_witness :
  (∀ it, it ∈ images →
     resolve (os_path_join ASSETS (filename_of it))
     = resolve ASSETS ++ [filename_of it])
  ∧ (NoDup (filename_of <$> images) →
     NoDup ((λ it, resolve (os_path_join ASSETS (filename_of it))) <$> images))
  ∧ (∀ it p, it ∈ images → p `prefix_of` resolve ASSETS →
             resolve (os_path_join ASSETS (filename_of it)) ≠ p)
  ∧ resolve (os_path_join ASSETS EmptyString) = resolve ASSETS.
Proof. exact (item_paths images images_plain). Defined.
